(** * MDACE: span cleanup, tokenizer and error-rate engine

    A shallow embedding of [mdace/cleanup.py], [mdace/text.py] and
    [mdace/metrics.py].

    Conventions of the embedding:
    - a Python [int] is a [Z];
    - a Python [str] is a [string].  What depends on Python's Unicode
      tables ([\w], [str.lower], [str.isdigit], [str.strip], [int]) is
      embedded as these tables are on the code points U+0000..U+007F, and
      the statements about the tokenizer assume text for which
      [str.isascii()] holds: the embedding says nothing about other text,
      where these tables decide (a superscript two is a digit for
      [str.isdigit] and none for [int], which raises on it);
    - a Python [float] is a binary64 number, a [float] of the kernel;
    - an [Optional[T]] is an [option T];
    - a call that may raise returns an [option]: [None] stands for the raised
      exception, which no function of these modules catches. *)

From Stdlib Require Import ZArith String Ascii List Sorted Permutation Lia.
From stdpp Require Import base decidable option list countable strings gmap.

Local Open Scope Z_scope.

(** ** Python strings *)

Module Py.

Definition len (s : string) : Z := Z.of_nat (String.length s).

(** [s[i]]: a negative index counts from the end, and an index out of range
    raises [IndexError]. *)
Definition getitem (s : string) (i : Z) : option ascii :=
  if bool_decide (0 ≤ i) then String.get (Z.to_nat i) s
  else if bool_decide (0 ≤ i + len s) then String.get (Z.to_nat (i + len s)) s
  else None.

(** How a slice bound is clamped to [0 .. n]. *)
Definition slice_bound (n i : Z) : Z :=
  if bool_decide (i < 0) then Z.max (i + n) 0 else Z.min i n.

(** [s[a:b]]: never raises. *)
Definition slice (s : string) (a b : Z) : string :=
  let lo := slice_bound (len s) a in
  let hi := slice_bound (len s) b in
  substring (Z.to_nat lo) (Z.to_nat (hi - lo)) s.

(** Truth value of an [Optional[str]]: [None] and the empty string are
    false. *)
Definition truthy (o : option string) : bool :=
  match o with
  | Some s => negb (String.eqb s "")
  | None => false
  end.

(** [c in chars] for a set of characters. *)
Definition mem (c : ascii) (chars : list ascii) : bool :=
  bool_decide (c ∈ chars).

Definition chars (s : string) : list ascii := list_ascii_of_string s.

Definition quote : ascii := ascii_of_nat 34.
Definition tab : ascii := ascii_of_nat 9.
Definition newline : ascii := ascii_of_nat 10.
Definition vtab : ascii := ascii_of_nat 11.
Definition formfeed : ascii := ascii_of_nat 12.
Definition cr : ascii := ascii_of_nat 13.
Definition space : ascii := ascii_of_nat 32.

(** [string.punctuation] *)
Definition punctuation : list ascii :=
  chars "!" ++ [quote] ++ chars "#$%&'()*+,-./:;<=>?@[\]^_`{|}~".

(** [string.whitespace] *)
Definition whitespace : list ascii :=
  [space; tab; newline; cr; vtab; formfeed].

(** [note.text] is an [Optional[str]]: subscripting [None] raises
    [TypeError]. *)
Definition text_getitem (text : option string) (i : Z) : option ascii :=
  s ← text; getitem s i.

Definition text_slice (text : option string) (a b : Z) : option string :=
  (λ s, slice s a b) <$> text.

End Py.

(** ** Data model *)

(** Modelled from the spec: [mdace/data.py] is not among the sources.  The
    records below follow section 3 of the specification and the way
    [cleanup.py], [text.py] and [metrics.py] use them: a [Span] is built from
    [begin], [end] and [covered_text], an [Annotation] carries a [span] and a
    [billing_code], a [Note] a [note_id], a [text] and [annotations], and
    iterating over an [Admission] yields its (note, annotation) pairs. *)

Record Span := mkSpan {
  begin : Z;
  end_ : Z;
  covered_text : option string
}.

Record BillingCode := mkBillingCode {
  code : string;
  code_system : string
}.

Record Annotation := mkAnnotation {
  span : Span;
  billing_code : BillingCode;
  annotator : string
}.

Record Note := mkNote {
  note_id : Z;
  category : string;
  text : option string;
  annotations : list Annotation
}.

Record Admission := mkAdmission {
  hadm_id : Z;
  notes : list Note
}.

(** Modelled from the spec: [Span.__len__], "Length is [end - begin]".
    Python's [len] raises [ValueError] on a negative result. *)
Definition Span_len (s : Span) : option Z :=
  if bool_decide (0 ≤ end_ s - begin s) then Some (end_ s - begin s) else None.

(** Modelled from the spec: [Admission.__iter__], used by [metrics.py] as
    [for note, annotation in admission]. *)
Definition Admission_iter (adm : Admission) : list (Note * Annotation) :=
  n ← notes adm; (λ a, (n, a)) <$> annotations n.

(** [dataclasses.replace(annotation, span=s)] and friends. *)
Definition replace_span (a : Annotation) (s : Span) : Annotation :=
  mkAnnotation s (billing_code a) (annotator a).

Definition replace_annotations (n : Note) (annos : list Annotation) : Note :=
  mkNote (note_id n) (category n) (text n) annos.

Definition replace_notes (adm : Admission) (ns : list Note) : Admission :=
  mkAdmission (hadm_id adm) ns.

(** Dataclass equality is structural, hence decidable. *)
#[global] Instance Span_eq_dec : EqDecision Span.
Proof. solve_decision. Defined.
#[global] Instance BillingCode_eq_dec : EqDecision BillingCode.
Proof. solve_decision. Defined.
#[global] Instance Annotation_eq_dec : EqDecision Annotation.
Proof. solve_decision. Defined.
#[global] Instance Note_eq_dec : EqDecision Note.
Proof. solve_decision. Defined.

(** ** [mdace/cleanup.py] *)

Definition _NON_BREAKING_CHARS : list ascii := Py.punctuation ++ Py.whitespace.

Definition _is_non_breaking (connecting : string) : bool :=
  forallb (λ c, Py.mem c _NON_BREAKING_CHARS) (Py.chars connecting).

Definition _merge (left right : Annotation) (note_text : option string)
    : option Annotation :=
  let new_begin := begin (span left) in
  let new_end := end_ (span right) in
  covered ← (if Py.truthy (covered_text (span left))
             then Some <$> Py.text_slice note_text new_begin new_end
             else Some None);
  Some (replace_span left (mkSpan new_begin new_end covered)).

(** [sorted(annotations, key=lambda a: a.span.begin)].  Python's sort is
    stable, which fixes its result; it is embedded as the stable insertion
    sort. *)
Fixpoint insert_by_begin (a : Annotation) (l : list Annotation) : list Annotation :=
  match l with
  | [] => [a]
  | b :: l' =>
      if bool_decide (begin (span a) ≤ begin (span b)) then a :: b :: l'
      else b :: insert_by_begin a l'
  end.

Definition sorted_by_begin (l : list Annotation) : list Annotation :=
  foldr insert_by_begin [] l.

(** [merged[-1] = m] *)
Definition set_last (merged : list Annotation) (m : Annotation) : list Annotation :=
  <[Nat.pred (length merged) := m]> merged.

(** One iteration of the loop [for current in order_ensured]. *)
Definition merge_step (note_text : option string) (merged : list Annotation)
    (current : Annotation) : option (list Annotation) :=
  previous ← last merged;
  if bool_decide (billing_code previous = billing_code current) then
    connecting ← Py.text_slice note_text (end_ (span previous)) (begin (span current));
    if _is_non_breaking connecting then
      m ← _merge previous current note_text;
      Some (set_last merged m)
    else Some (merged ++ [current])
  else Some (merged ++ [current]).

Fixpoint merge_loop (note_text : option string) (merged : list Annotation)
    (order_ensured : list Annotation) : option (list Annotation) :=
  match order_ensured with
  | [] => Some merged
  | current :: rest =>
      merged' ← merge_step note_text merged current;
      merge_loop note_text merged' rest
  end.

Definition _merge_adjacent (annotations : list Annotation)
    (note_text : option string) : option (list Annotation) :=
  if bool_decide (length annotations < 2)%nat then Some annotations
  else
    match sorted_by_begin annotations with
    | [] => None
    | first :: order_ensured => merge_loop note_text [first] order_ensured
    end.

Definition merge_adjacent_in_note (note : Note) : option Note :=
  if bool_decide (length (annotations note) < 2)%nat then Some note
  else
    new_annos ← _merge_adjacent (annotations note) (text note);
    if bool_decide (length new_annos < length (annotations note))%nat
    then Some (replace_annotations note new_annos)
    else Some note.

Definition TRIM_CHARS : list ascii :=
  Py.chars "-.,/ " ++ [Py.newline; Py.tab].
Definition TRIM_L_CHARS : list ascii := Py.chars ")" ++ TRIM_CHARS.
Definition TRIM_R_CHARS : list ascii := Py.chars "(" ++ TRIM_CHARS.

(** The loop [while new_begin < span.end]; [n] is its variant
    [span.end - new_begin], so the loop condition holds exactly when [n] is a
    successor. *)
Fixpoint trim_left (n : nat) (text : option string) (new_begin : Z) : option Z :=
  match n with
  | O => Some new_begin
  | S n' =>
      char ← Py.text_getitem text new_begin;
      if Py.mem char TRIM_L_CHARS then trim_left n' text (new_begin + 1)
      else Some new_begin
  end.

(** The loop [while new_end > new_begin], with variant [new_end - new_begin]. *)
Fixpoint trim_right (n : nat) (text : option string) (new_end : Z) : option Z :=
  match n with
  | O => Some new_end
  | S n' =>
      char ← Py.text_getitem text (new_end - 1);
      if Py.mem char TRIM_R_CHARS then trim_right n' text (new_end - 1)
      else Some new_end
  end.

Definition _do_trim (text : option string) (span : Span) : option Span :=
  new_begin ← trim_left (Z.to_nat (end_ span - begin span)) text (begin span);
  new_end ← trim_right (Z.to_nat (end_ span - new_begin)) text (end_ span);
  new_covered_text ← (if Py.truthy (covered_text span)
                      then Some <$> Py.text_slice text new_begin new_end
                      else Some None);
  Some (mkSpan new_begin new_end new_covered_text).

(** The body of the loop of [trim_annotations_in_note].  The error that is
    logged for an emptied span changes no value; [len(new_span)] is
    evaluated for it. *)
Definition trim_annotation (text : option string) (current : Annotation)
    : option Annotation :=
  new_span ← _do_trim text (span current);
  if bool_decide (new_span ≠ span current) then
    _ ← Span_len new_span;
    Some (replace_span current new_span)
  else Some current.

Definition trim_annotations_in_note (note : Note) : option Note :=
  new_annos ← mapM (trim_annotation (text note)) (annotations note);
  Some (replace_annotations note new_annos).

(** ** [mdace/text.py] *)

Module Re.

Definition in_range (lo hi : nat) (c : ascii) : bool :=
  bool_decide (lo ≤ nat_of_ascii c ≤ hi)%nat.

Definition is_decimal (c : ascii) : bool := in_range 48 57 c.

(** [\w]: letters, digits and the underscore. *)
Definition is_word (c : ascii) : bool :=
  is_decimal c || in_range 65 90 c || in_range 97 122 c
  || bool_decide (nat_of_ascii c = 95%nat).

(** The match that ends at [pos]; [run] holds its characters, last first. *)
Definition close_run (pos : Z) (run : list ascii) : list Span :=
  match run with
  | [] => []
  | _ =>
      [mkSpan (pos - Z.of_nat (length run)) pos
              (Some (string_of_list_ascii (rev run)))]
  end.

(** The non-overlapping matches of [\w+], left to right, each as
    [Span( *match.span(), covered_text=match.group())]. *)
Fixpoint scan (pos : Z) (run : list ascii) (cs : list ascii) : list Span :=
  match cs with
  | [] => close_run pos run
  | c :: cs' =>
      if is_word c then scan (pos + 1) (c :: run) cs'
      else close_run pos run ++ scan (pos + 1) [] cs'
  end.

Definition finditer_spans (s : string) : list Span := scan 0 [] (Py.chars s).

End Re.

Module Str.

Definition lower_char (c : ascii) : ascii :=
  if Re.in_range 65 90 c then ascii_of_nat (nat_of_ascii c + 32) else c.

(** [text.lower()] *)
Definition lower (s : string) : string :=
  string_of_list_ascii (lower_char <$> Py.chars s).

(** [s.isdigit()]: no character but digits, and at least one. *)
Definition isdigit (s : string) : bool :=
  negb (String.eqb s "") && forallb Re.is_decimal (Py.chars s).

Definition digit_value (c : ascii) : Z := Z.of_nat (nat_of_ascii c) - 48.

(** [sys.get_int_max_str_digits()], as the interpreter starts with it:
    [int] raises [ValueError] on a string with more digits (Python 3.11, and
    the later releases of 3.7 to 3.10). *)
Definition int_max_str_digits : Z := 4300.

(** [int(s)] for a string of decimal digits; [ValueError] on more than
    [int_max_str_digits] of them, leading zeros counted, and on any other
    string.  The literals with a sign, blanks or underscores that [int]
    also reads never reach it here: [tokenize] calls it under
    [s.isdigit()]. *)
Definition int (s : string) : option Z :=
  if isdigit s && bool_decide (Py.len s ≤ int_max_str_digits)
  then Some (fold_left (λ acc c, 10 * acc + digit_value c) (Py.chars s) 0)
  else None.

End Str.

(** The condition of the list comprehension of [tokenize]:
    [not span.covered_text.isdigit() or int(span.covered_text) <= 10]. *)
Definition keep_token (sp : Span) : option bool :=
  ct ← covered_text sp;
  if negb (Str.isdigit ct) then Some true
  else v ← Str.int ct; Some (bool_decide (v ≤ 10)).

(** [[x for x in l if cond(x)]] for a condition that may raise. *)
Fixpoint filter_raising {A} (cond : A → option bool) (l : list A) : option (list A) :=
  match l with
  | [] => Some []
  | x :: l' =>
      b ← cond x;
      rest ← filter_raising cond l';
      Some (if b : bool then x :: rest else rest)
  end.

Definition tokenize (text : string) : option (list Span) :=
  let spans := Re.finditer_spans (Str.lower text) in
  filter_raising keep_token spans.

Definition tokenize_annotation (annotation : Annotation)
    (tokenize_fn : string → option (list Span)) : option (list Annotation) :=
  ct ← covered_text (span annotation);
  let token_offset := begin (span annotation) in
  fmap (M:=list)
       (λ sp, replace_span annotation
                (mkSpan (token_offset + begin sp) (token_offset + end_ sp)
                        (covered_text sp)))
    <$> tokenize_fn ct.

Definition tokenize_annotations (annos : list Annotation)
    (tokenize_fn : string → option (list Span)) : option (list Annotation) :=
  (λ flat, concat flat) <$> mapM (λ a, tokenize_annotation a tokenize_fn) annos.

Definition tokenize_admission (admission : Admission)
    (tokenize_fn : string → option (list Span)) : option Admission :=
  replace_notes admission <$>
    mapM (λ note, replace_annotations note <$>
                    tokenize_annotations (annotations note) tokenize_fn)
         (notes admission).

(** ** [mdace/metrics.py] *)

Record ErrorRate := mkErrorRate {
  true_positives : Z;
  false_positives : Z;
  false_negatives : Z
}.

Definition ErrorRate_zero : ErrorRate := mkErrorRate 0 0 0.

(** [ErrorRate.__add__]; its [other] is an [ErrorRate] by typing. *)
Definition ErrorRate_add (self other : ErrorRate) : ErrorRate :=
  mkErrorRate (true_positives self + true_positives other)
              (false_positives self + false_positives other)
              (false_negatives self + false_negatives other).

Definition total (e : ErrorRate) : Z :=
  true_positives e + false_positives e + false_negatives e.
Definition n_pred (e : ErrorRate) : Z := true_positives e + false_positives e.
Definition n_actual (e : ErrorRate) : Z := true_positives e + false_negatives e.

(** [precision], [recall] and [f1_score] divide Python floats; they and the
    table that [__str__] prints from them are not embedded. *)

#[global] Instance Span_countable : Countable Span.
Proof.
  refine (inj_countable' (λ s, (begin s, end_ s, covered_text s))
                         (λ t, mkSpan t.1.1 t.1.2 t.2) _).
  by intros [].
Defined.

#[global] Instance BillingCode_countable : Countable BillingCode.
Proof.
  refine (inj_countable' (λ b, (code b, code_system b))
                         (λ t, mkBillingCode t.1 t.2) _).
  by intros [].
Defined.

#[global] Instance Annotation_countable : Countable Annotation.
Proof.
  refine (inj_countable' (λ a, (span a, billing_code a, annotator a))
                         (λ t, mkAnnotation t.1.1 t.1.2 t.2) _).
  by intros [].
Defined.

(** [set(key(note, annotation) for note, annotation in admission)] *)
Definition key_set `{Countable K} (key : Note → Annotation → option K)
    (adm : Admission) : option (gset K) :=
  list_to_set <$> mapM (λ na, key na.1 na.2) (Admission_iter adm).

Definition _count_unique_errors `{Countable K} (actual predicted : Admission)
    (key : Note → Annotation → option K) : option ErrorRate :=
  actual_set ← key_set key actual;
  predicted_set ← key_set key predicted;
  let tp := actual_set ∩ predicted_set in
  let fp := predicted_set ∖ actual_set in
  let fn := actual_set ∖ predicted_set in
  Some (mkErrorRate (Z.of_nat (size tp)) (Z.of_nat (size fp)) (Z.of_nat (size fn))).

Definition exact_match_error (actual predicted : Admission) : option ErrorRate :=
  let key_fn (note : Note) (anno : Annotation) := Some (note_id note, anno) in
  _count_unique_errors actual predicted key_fn.

Definition normalize (text : string) : string := Str.lower text.

(** [anno.span.covered_text] is an [Optional[str]]: [normalize(None)] raises
    [AttributeError]. *)
Definition position_independent_error (actual predicted : Admission)
    : option ErrorRate :=
  let key_fn (note : Note) (anno : Annotation) :=
    ct ← covered_text (span anno);
    Some (normalize ct, billing_code anno) in
  _count_unique_errors actual predicted key_fn.

Definition token_exact_match_error (actual predicted : Admission)
    (tokenize : string → option (list Span)) : option ErrorRate :=
  a_tokenized ← tokenize_admission actual tokenize;
  p_tokenized ← tokenize_admission predicted tokenize;
  exact_match_error a_tokenized p_tokenized.

Definition token_position_independent_error (actual predicted : Admission)
    (tokenize : string → option (list Span)) : option ErrorRate :=
  a_tokenized ← tokenize_admission actual tokenize;
  p_tokenized ← tokenize_admission predicted tokenize;
  position_independent_error a_tokenized p_tokenized.

(** [AllErrorRates]: [error_rates] is a dictionary with four fixed keys,
    read and rebound by [observe]; [tokenize_fn] is set once. *)
Record AllErrorRates := mkAllErrorRates {
  span_exact_match : ErrorRate;
  span_position_independent : ErrorRate;
  token_exact_match : ErrorRate;
  token_position_independent : ErrorRate
}.

Definition AllErrorRates_init : AllErrorRates :=
  mkAllErrorRates ErrorRate_zero ErrorRate_zero ErrorRate_zero ErrorRate_zero.

(** [observe] rebinds the four entries one after the other; an exception
    leaves [observe], and the run, at the first entry that raises. *)
Definition observe (tokenize_fn : string → option (list Span))
    (self : AllErrorRates) (actual predicted : Admission) : option AllErrorRates :=
  e1 ← exact_match_error actual predicted;
  e2 ← position_independent_error actual predicted;
  e3 ← token_exact_match_error actual predicted tokenize_fn;
  e4 ← token_position_independent_error actual predicted tokenize_fn;
  Some (mkAllErrorRates
          (ErrorRate_add (span_exact_match self) e1)
          (ErrorRate_add (span_position_independent self) e2)
          (ErrorRate_add (token_exact_match self) e3)
          (ErrorRate_add (token_position_independent self) e4)).

(** [observe] called once per admission pair, in the order of [pairs]. *)
Fixpoint observe_all (tokenize_fn : string → option (list Span))
    (self : AllErrorRates) (pairs : list (Admission * Admission))
    : option AllErrorRates :=
  match pairs with
  | [] => Some self
  | (actual, predicted) :: rest =>
      self' ← observe tokenize_fn self actual predicted;
      observe_all tokenize_fn self' rest
  end.

(** ** [mdace/cleanup.py], on datasets *)

(** Modelled from the spec: [MDACEData] of [mdace/data.py], "an ordered
    sequence of Admissions", built as [MDACEData(admissions=...)]. *)
Record MDACEData := mkMDACEData {
  admissions : list Admission
}.

Definition _map_notes (mdace : MDACEData) (map_fn : Note → option Note)
    : option MDACEData :=
  let map_adm (adm : Admission) : option Admission :=
    replace_notes adm <$> mapM map_fn (notes adm) in
  mkMDACEData <$> mapM map_adm (admissions mdace).

Definition merge_adjacent_annotations (mdace : MDACEData) : option MDACEData :=
  _map_notes mdace merge_adjacent_in_note.

Definition trim_annotations (mdace : MDACEData) : option MDACEData :=
  _map_notes mdace trim_annotations_in_note.

(** ** [evaluate-predictions.py] *)

Definition filter_admissions_by_id (dataset : MDACEData) (hadm_ids : gset Z)
    : MDACEData :=
  mkMDACEData (filter (λ adm, hadm_id adm ∈ hadm_ids) (admissions dataset)).

Definition filter_notes_by_category (dataset : MDACEData)
    (note_categories : gset string) : MDACEData :=
  mkMDACEData
    ((λ adm, replace_notes adm
               (filter (λ note, category note ∈ note_categories) (notes adm)))
     <$> admissions dataset).

(** [str.isspace] on ASCII: tab to carriage return, the four separators
    U+001C..U+001F, and the space. *)
Definition py_isspace (c : ascii) : bool :=
  Re.in_range 9 13 c || Re.in_range 28 32 c.

Fixpoint lstrip_chars (cs : list ascii) : list ascii :=
  match cs with
  | c :: cs' => if py_isspace c then lstrip_chars cs' else cs
  | [] => []
  end.

(** [s.strip()] *)
Definition py_strip (s : string) : string :=
  string_of_list_ascii (rev (lstrip_chars (rev (lstrip_chars (Py.chars s))))).

(** The digits of an integer literal, with single underscores between
    digits; [pending] says that the last character read was an underscore. *)
Fixpoint literal_digits (acc : Z) (pending : bool) (cs : list ascii) : option Z :=
  match cs with
  | [] => if pending then None else Some acc
  | c :: cs' =>
      if Re.is_decimal c
      then literal_digits (10 * acc + Str.digit_value c) false cs'
      else if bool_decide (c = "_"%char)
           then (if pending then None else literal_digits acc true cs')
           else None
  end.

(** [int(s)] on ASCII text: blanks around, an optional sign, and decimal
    digits that begin with a digit; [ValueError] otherwise, and on more than
    [Str.int_max_str_digits] digits (the sign and the underscores are not
    counted). *)
Definition py_int (s : string) : option Z :=
  let cs := Py.chars (py_strip s) in
  let signed :=
    match cs with
    | c :: body =>
        if bool_decide (c = "-"%char) then (true, body)
        else if bool_decide (c = "+"%char) then (false, body)
        else (false, cs)
    | [] => (false, cs)
    end in
  match signed.2 with
  | c :: _ =>
      if Re.is_decimal c
      then v ← literal_digits 0 false signed.2;
           if bool_decide (Z.of_nat (length (List.filter Re.is_decimal signed.2))
                           ≤ Str.int_max_str_digits)
           then Some (if signed.1 : bool then - v else v)
           else None
      else None
  | [] => None
  end.

(** The loop of [load_hadm_ids] from line [idx] on; [lines] are the lines
    that iterating over the file yields. *)
Fixpoint load_hadm_ids_from (idx : nat) (lines : list string) (hadm_ids : gset Z)
    : option (gset Z) :=
  match lines with
  | [] => Some hadm_ids
  | line :: rest =>
      match py_int (py_strip line) with
      | Some n => load_hadm_ids_from (S idx) rest (hadm_ids ∪ {[n]})
      | None =>
          if bool_decide (0 < idx)%nat then None
          else load_hadm_ids_from (S idx) rest hadm_ids
      end
  end.

Definition load_hadm_ids (lines : list string) : option (gset Z) :=
  load_hadm_ids_from 0 lines ∅.

(** A Python [dict] with integer keys, as the list of its items in
    insertion order: [d[k] = v] replaces the value of a key that is there,
    in place, and adds a new key at the end. *)
Fixpoint dict_set {V} (d : list (Z * V)) (k : Z) (v : V) : list (Z * V) :=
  match d with
  | [] => [(k, v)]
  | (k', v') :: d' =>
      if bool_decide (k' = k) then (k, v) :: d' else (k', v') :: dict_set d' k v
  end.

(** [d.get(k)] *)
Fixpoint dict_get {V} (d : list (Z * V)) (k : Z) : option V :=
  match d with
  | [] => None
  | (k', v) :: d' => if bool_decide (k' = k) then Some v else dict_get d' k
  end.

(** [load_grouped_predictions], after [MDACEData.from_dir] has read
    [dataset]; [target_categories] is the list that [--note-category]
    collects, empty when the option is not given. *)
Definition load_grouped_predictions (dataset : MDACEData) (hadm_ids : gset Z)
    (target_categories : list string) (merge_adjacent trim_annos : bool)
    : option (list (Z * Admission)) :=
  let dataset := filter_admissions_by_id dataset hadm_ids in
  let dataset :=
    if bool_decide (target_categories ≠ [])
    then filter_notes_by_category dataset (list_to_set target_categories)
    else dataset in
  dataset ← (if merge_adjacent then merge_adjacent_annotations dataset
             else Some dataset);
  dataset ← (if trim_annos then trim_annotations dataset else Some dataset);
  Some (foldl (λ d adm, dict_set d (hadm_id adm) adm) [] (admissions dataset)).

(** What [observe] does with [predictions.get(hadm_id, [])] when the key is
    missing.  Iterating over the list [[]] yields nothing, as iterating over
    an admission without notes does, so the two span-level errors are
    computed; [tokenize_admission] then reads [[].notes], which raises
    [AttributeError]. *)
Definition observe_unpredicted (tokenize_fn : string → option (list Span))
    (self : AllErrorRates) (actual : Admission) : option AllErrorRates :=
  let nothing := mkAdmission 0 [] in
  e1 ← exact_match_error actual nothing;
  e2 ← position_independent_error actual nothing;
  a_tokenized ← tokenize_admission actual tokenize_fn;
  None.

(** The loop of [main] over [gold.items()].  The test before the debug
    message reads the truth values of the two admissions and changes
    nothing; without a prediction [observe] is called all the same, on the
    list [[]]. *)
Fixpoint evaluate_from (self : AllErrorRates) (gold : list (Z * Admission))
    (predictions : list (Z * Admission)) : option AllErrorRates :=
  match gold with
  | [] => Some self
  | (hadm_id, actual_evidence) :: rest =>
      self' ← match dict_get predictions hadm_id with
              | Some predicted_evidence =>
                  observe tokenize self actual_evidence predicted_evidence
              | None => observe_unpredicted tokenize self actual_evidence
              end;
      evaluate_from self' rest predictions
  end.

Definition evaluate (gold predictions : list (Z * Admission))
    : option AllErrorRates :=
  evaluate_from AllErrorRates_init gold predictions.

(** ** Definitions used by the statements *)

(** "Purely numeric" and "integer value", in the words of the
    specification of the tokenizer's filter: the value is the positional
    reading of the decimal digits. *)
Definition purely_numeric (s : string) : bool :=
  match Py.chars s with
  | [] => false
  | cs => forallb Re.is_decimal cs
  end.

Fixpoint decimal_value (cs : list ascii) : Z :=
  match cs with
  | [] => 0
  | c :: cs' => Str.digit_value c * 10 ^ Z.of_nat (length cs') + decimal_value cs'
  end.

Definition numeric_above_10 (sp : Span) : bool :=
  match covered_text sp with
  | Some ct => purely_numeric ct && bool_decide (10 < decimal_value (Py.chars ct))
  | None => false
  end.

(** Some annotation of the admission has no covered text. *)
Definition has_absent_text (adm : Admission) : Prop :=
  ∃ note anno, note ∈ notes adm ∧ anno ∈ annotations note
               ∧ covered_text (span anno) = None.

(** [s.isascii()]: no character beyond U+007F. *)
Definition isascii (s : string) : bool :=
  forallb (λ c, bool_decide (nat_of_ascii c < 128)%nat) (Py.chars s).

(** The covered texts of the admission are ASCII text. *)
Definition ascii_texts (adm : Admission) : Prop :=
  ∀ note anno ct, note ∈ notes adm → anno ∈ annotations note →
                  covered_text (span anno) = Some ct → isascii ct = true.

(** A match whose text is purely numeric, with more digits than [int]
    reads. *)
Definition long_number (sp : Span) : bool :=
  match covered_text sp with
  | Some ct => purely_numeric ct && bool_decide (Str.int_max_str_digits < Py.len ct)
  | None => false
  end.

(** The text holds such a token: a run of more than 4300 digits, with no
    letter or underscore next to it. *)
Definition has_long_number (text : string) : bool :=
  existsb long_number (Re.finditer_spans (Str.lower text)).

(** Some covered text of the admission holds such a token. *)
Definition has_long_number_text (adm : Admission) : Prop :=
  ∃ note anno ct, note ∈ notes adm ∧ anno ∈ annotations note
                  ∧ covered_text (span anno) = Some ct
                  ∧ has_long_number ct = true.

(** What makes the tokenization of an admission raise. *)
Definition untokenizable (adm : Admission) : Prop :=
  has_absent_text adm ∨ has_long_number_text adm.

(** What one admission pair contributes, whatever has been accumulated. *)
Definition pair_errors (tokenize_fn : string → option (list Span))
    (actual predicted : Admission)
    : option (ErrorRate * ErrorRate * ErrorRate * ErrorRate) :=
  e1 ← exact_match_error actual predicted;
  e2 ← position_independent_error actual predicted;
  e3 ← token_exact_match_error actual predicted tokenize_fn;
  e4 ← token_position_independent_error actual predicted tokenize_fn;
  Some (e1, e2, e3, e4).

Definition accumulate (self : AllErrorRates)
    (e : ErrorRate * ErrorRate * ErrorRate * ErrorRate) : AllErrorRates :=
  mkAllErrorRates
    (ErrorRate_add (span_exact_match self) e.1.1.1)
    (ErrorRate_add (span_position_independent self) e.1.1.2)
    (ErrorRate_add (token_exact_match self) e.1.2)
    (ErrorRate_add (token_position_independent self) e.2).

(** The character of [s] at [i] is in the set [chars]. *)
Definition char_in (s : string) (chars : list ascii) (i : Z) : Prop :=
  ∃ c, Py.getitem s i = Some c ∧ c ∈ chars.

(** The character of [s] at [i] is outside of the set [chars]. *)
Definition char_out (s : string) (chars : list ascii) (i : Z) : Prop :=
  ∃ c, Py.getitem s i = Some c ∧ c ∉ chars.

(** [a] begins no later than [b]. *)
Definition begin_le (a b : Annotation) : Prop := begin (span a) ≤ begin (span b).

(** The test of the loop of [_merge_adjacent], with Python's short-circuit
    [and]: the connecting text is read only when the codes are equal. *)
Definition merge_test (note_text : option string) (previous current : Annotation)
    : option bool :=
  if bool_decide (billing_code previous = billing_code current) then
    _is_non_breaking <$>
      Py.text_slice note_text (end_ (span previous)) (begin (span current))
  else Some false.

(** No annotation of [l] can be merged into the one before it. *)
Fixpoint settled (note_text : option string) (l : list Annotation) : Prop :=
  match l with
  | previous :: (current :: _) as l' =>
      merge_test note_text previous current = Some false ∧ settled note_text l'
  | _ => True
  end.

(** What merge-adjacent reads of an annotation: its bounds and its code. *)
Definition bounds_code (a : Annotation) : Z * Z * BillingCode :=
  (begin (span a), end_ (span a), billing_code a).

(** Equal billing codes, and nothing but non-breaking characters strictly
    between the end of the previous span and the begin of the current one. *)
Definition merge_eligible (s : string) (previous current : Z * Z * BillingCode)
    : bool :=
  bool_decide (previous.2 = current.2)
  && forallb (λ c, bool_decide (c ∈ Py.punctuation ∨ c ∈ Py.whitespace))
             (Py.chars (Py.slice s previous.1.2 current.1.1)).

(** The walk from left to right, in the words of the specification:
    [previous] is the last accumulated entry; an eligible [current] is
    merged into it, with span [left's begin, right's end], and any other
    starts a new entry. *)
Fixpoint merge_walk (s : string) (previous : Z * Z * BillingCode)
    (rest : list (Z * Z * BillingCode)) : list (Z * Z * BillingCode) :=
  match rest with
  | [] => [previous]
  | current :: rest' =>
      if merge_eligible s previous current
      then merge_walk s (previous.1.1, current.1.2, previous.2) rest'
      else previous :: merge_walk s current rest'
  end.

Definition merge_walk_all (s : string) (l : list (Z * Z * BillingCode))
    : list (Z * Z * BillingCode) :=
  match l with
  | [] => []
  | first :: rest => merge_walk s first rest
  end.

(** The covered text that [_do_trim] sets for the bounds [b], [e]. *)
Definition trimmed_text (text : option string) (ct : option string) (b e : Z)
    : option (option string) :=
  if Py.truthy ct then Some <$> Py.text_slice text b e else Some None.

(** Annotations and notes for the worked cases of the specification. *)
Module Examples.

Definition code_A : BillingCode := mkBillingCode "A" "ICD-10-CM".
Definition code_B : BillingCode := mkBillingCode "B" "ICD-10-CM".

Definition foo_A : Annotation := mkAnnotation (mkSpan 0 3 (Some "foo")) code_A "human".
Definition bar_A : Annotation := mkAnnotation (mkSpan 5 8 (Some "bar")) code_A "human".
Definition bar_B : Annotation := mkAnnotation (mkSpan 5 8 (Some "bar")) code_B "human".
Definition foo_bar_A : Annotation :=
  mkAnnotation (mkSpan 0 8 (Some "foo, bar")) code_A "human".

(** A zero-length span at offset 3 of "foo, bar", with its (empty) text. *)
Definition empty_A : Annotation := mkAnnotation (mkSpan 3 3 (Some "")) code_A "human".
(** An annotation without covered text. *)
Definition bare_A : Annotation := mkAnnotation (mkSpan 0 3 None) code_A "human".
(** The separator of "foo, bar", annotated on its own. *)
Definition separator_B : Annotation :=
  mkAnnotation (mkSpan 3 5 (Some ", ")) code_B "human".

Definition note_of (annos : list Annotation) : Note :=
  mkNote 1 "Discharge summary" (Some "foo, bar") annos.

(** A run of 4301 digits, one more than [int] reads, and an admission with
    one note, which is that run and is annotated as a whole. *)
Definition many_ones : string := string_of_list_ascii (repeat "1"%char 4301).
Definition many_ones_A : Annotation :=
  mkAnnotation (mkSpan 0 4301 (Some many_ones)) code_A "human".
Definition many_ones_admission : Admission :=
  mkAdmission 100 [mkNote 1 "Discharge summary" (Some many_ones) [many_ones_A]].

Definition admission_of (annos : list Annotation) : Admission :=
  mkAdmission 100 [note_of annos].

End Examples.

(** ** Definitions used by the further statements *)

(** The key of the exact span match, and the keys of an admission. *)
Definition exact_key (na : Note * Annotation) : Z * Annotation :=
  (note_id na.1, na.2).

Definition exact_keys (adm : Admission) : gset (Z * Annotation) :=
  list_to_set (exact_key <$> Admission_iter adm).

(** The (note id, annotation) pairs of an admission, in order. *)
Definition id_annotations (adm : Admission) : list (Z * Annotation) :=
  exact_key <$> Admission_iter adm.

(** The error rate of the comparison in the other direction. *)
Definition ErrorRate_swap (e : ErrorRate) : ErrorRate :=
  mkErrorRate (true_positives e) (false_negatives e) (false_positives e).

(** Two neighbours of [l] have the same billing code. *)
Fixpoint neighbours_share_code (l : list Annotation) : Prop :=
  match l with
  | a :: (b :: _) as l' =>
      billing_code a = billing_code b ∨ neighbours_share_code l'
  | _ => False
  end.

(** [m] begins where an annotation of [annos] begins, whose code and
    annotator it has, and ends where an annotation of [annos] with that code
    ends. *)
Definition made_of (annos : list Annotation) (m : Annotation) : Prop :=
  ∃ l r, l ∈ annos ∧ r ∈ annos
         ∧ begin (span m) = begin (span l) ∧ end_ (span m) = end_ (span r)
         ∧ billing_code m = billing_code l ∧ annotator m = annotator l
         ∧ billing_code r = billing_code l.

(** [a'] is [a] with a span shrunk inside of the span of [a]. *)
Definition shrunk (a a' : Annotation) : Prop :=
  billing_code a' = billing_code a ∧ annotator a' = annotator a
  ∧ begin (span a) ≤ begin (span a') ∧ end_ (span a') ≤ end_ (span a)
  ∧ (begin (span a) ≤ end_ (span a) → begin (span a') ≤ end_ (span a')).

(** [adm'] is [adm] with [notes'] for notes, note by note. *)
Definition notes_mapped (map_fn : Note → option Note) (adm adm' : Admission)
    : Prop :=
  hadm_id adm' = hadm_id adm
  ∧ Forall2 (λ n n', map_fn n = Some n') (notes adm) (notes adm').

(** The spans of [l] are non-empty, in order, and apart: each begins at [p]
    or later, and the next one begins after its end. *)
Fixpoint apart_from (p : Z) (l : list Span) : Prop :=
  match l with
  | [] => True
  | sp :: l' => p ≤ begin sp ∧ begin sp < end_ sp ∧ apart_from (end_ sp + 1) l'
  end.

(** [sp] covers a non-empty run of word characters of [s], with its text. *)
Definition covers_word (s : string) (sp : Span) : Prop :=
  0 ≤ begin sp ∧ begin sp < end_ sp ∧ end_ sp ≤ Py.len s
  ∧ covered_text sp = Some (Py.slice s (begin sp) (end_ sp))
  ∧ Forall (λ c, Re.is_word c = true) (Py.chars (Py.slice s (begin sp) (end_ sp))).

(** An admission that the filters let through. *)
Definition filtered (hadm_ids : gset Z) (target_categories : list string)
    (adm : Admission) : Prop :=
  hadm_id adm ∈ hadm_ids
  ∧ (target_categories ≠ [] →
     Forall (λ note, category note ∈ target_categories) (notes adm)).

(** [a2] is [a1] without its covered text, if that is the empty string, and
    [a1] otherwise. *)
Definition emptied_text_dropped (a1 a2 : Annotation) : Prop :=
  billing_code a2 = billing_code a1 ∧ annotator a2 = annotator a1
  ∧ begin (span a2) = begin (span a1) ∧ end_ (span a2) = end_ (span a1)
  ∧ covered_text (span a2)
    = (if Py.truthy (covered_text (span a1)) then covered_text (span a1)
       else None).

(** * Properties *)

(** *** Error rates add up in any order *)

Lemma ErrorRate_add_comm (a b : ErrorRate) : ErrorRate_add a b = ErrorRate_add b a.
Proof. destruct a, b; unfold ErrorRate_add; simpl; f_equal; lia. Qed.

Lemma ErrorRate_add_assoc (a b c : ErrorRate) :
  ErrorRate_add a (ErrorRate_add b c) = ErrorRate_add (ErrorRate_add a b) c.
Proof. destruct a, b, c; unfold ErrorRate_add; simpl; f_equal; lia. Qed.

Lemma ErrorRate_add_swap (a b c : ErrorRate) :
  ErrorRate_add (ErrorRate_add a b) c = ErrorRate_add (ErrorRate_add a c) b.
Proof.
  rewrite <- !ErrorRate_add_assoc. f_equal. apply ErrorRate_add_comm.
Qed.

Lemma observe_accumulate tokenize_fn self actual predicted :
  observe tokenize_fn self actual predicted
  = accumulate self <$> pair_errors tokenize_fn actual predicted.
Proof.
  unfold observe, pair_errors.
  destruct (exact_match_error actual predicted); simpl; [|done].
  destruct (position_independent_error actual predicted); simpl; [|done].
  destruct (token_exact_match_error actual predicted tokenize_fn); simpl; [|done].
  by destruct (token_position_independent_error actual predicted tokenize_fn).
Qed.

Lemma accumulate_swap self e e' :
  accumulate (accumulate self e) e' = accumulate (accumulate self e') e.
Proof.
  unfold accumulate; simpl. f_equal; apply ErrorRate_add_swap.
Qed.

Lemma observe_all_swap tokenize_fn self x y rest :
  observe_all tokenize_fn self (x :: y :: rest)
  = observe_all tokenize_fn self (y :: x :: rest).
Proof.
  destruct x as [a p], y as [a' p']. simpl.
  rewrite (observe_accumulate _ self a p), (observe_accumulate _ self a' p').
  destruct (pair_errors tokenize_fn a p) as [e|] eqn:He,
           (pair_errors tokenize_fn a' p') as [e'|] eqn:He'; simpl;
    rewrite ?observe_accumulate, ?He, ?He'; simpl; try done.
  by rewrite accumulate_swap.
Qed.

Lemma observe_all_Permutation tokenize_fn pairs pairs' :
  Permutation pairs pairs' →
  ∀ self, observe_all tokenize_fn self pairs = observe_all tokenize_fn self pairs'.
Proof.
  induction 1 as [|[a p] l l' _ IH|x y l|l l' l'' _ IH1 _ IH2]; intros self.
  - done.
  - simpl. destruct (observe tokenize_fn self a p); simpl; [apply IH|done].
  - apply observe_all_swap.
  - by rewrite IH1.
Qed.

(** The totals, when every pair is observed without an exception. *)
Lemma observe_all_Some tokenize_fn pairs : ∀ self es,
  mapM (λ ap, pair_errors tokenize_fn ap.1 ap.2) pairs = Some es →
  observe_all tokenize_fn self pairs = Some (foldl accumulate self es).
Proof.
  induction pairs as [|[a p] pairs IH]; intros self es; simpl.
  - by intros [= <-].
  - rewrite observe_accumulate.
    destruct (pair_errors tokenize_fn a p) as [e|]; simpl; [|done].
    destruct (mapM _ pairs) as [es'|] eqn:Hes; simpl; [|done].
    intros [= <-]. simpl. by apply IH.
Qed.

(** The counts are sizes of sets. *)
Lemma count_unique_errors_nonneg `{Countable K} (actual predicted : Admission)
    (key : Note → Annotation → option K) (e : ErrorRate) :
  _count_unique_errors actual predicted key = Some e →
  0 ≤ true_positives e ∧ 0 ≤ false_positives e ∧ 0 ≤ false_negatives e.
Proof.
  unfold _count_unique_errors. intros He.
  apply bind_Some in He as (actual_set & _ & He).
  apply bind_Some in He as (predicted_set & _ & [= <-]).
  cbn [true_positives false_positives false_negatives]. lia.
Qed.

(** The end-to-end case of the specification: one gold annotation, predicted
    together with one that is not in the gold set. *)
Example exact_match_end_to_end :
  exact_match_error
    (mkAdmission 1 [mkNote 1 "Radiology" None
                      [mkAnnotation (mkSpan 0 3 None) Examples.code_A "human"]])
    (mkAdmission 1 [mkNote 1 "Radiology" None
                      [mkAnnotation (mkSpan 0 3 None) Examples.code_A "human";
                       mkAnnotation (mkSpan 10 13 None) Examples.code_B "human"]])
  = Some (mkErrorRate 1 1 0).
Proof. vm_compute. reflexivity. Qed.

(** *** The tokenizer *)

Lemma horner_decimal_value (cs : list ascii) (acc : Z) :
  fold_left (λ acc c, 10 * acc + Str.digit_value c) cs acc
  = acc * 10 ^ Z.of_nat (length cs) + decimal_value cs.
Proof.
  revert acc. induction cs as [|c cs IH]; intros acc; simpl fold_left.
  - simpl. lia.
  - rewrite IH. cbn [decimal_value length].
    rewrite Nat2Z.inj_succ, Z.pow_succ_r by lia. lia.
Qed.

Lemma isdigit_purely_numeric (s : string) : Str.isdigit s = purely_numeric s.
Proof.
  unfold Str.isdigit, purely_numeric, Py.chars.
  by destruct s as [|c s].
Qed.

Lemma int_decimal_value (s : string) :
  Str.isdigit s = true →
  Str.int s = if bool_decide (Py.len s ≤ Str.int_max_str_digits)
              then Some (decimal_value (Py.chars s)) else None.
Proof.
  intros H. unfold Str.int. rewrite H, horner_decimal_value.
  by case_bool_decide.
Qed.

Lemma keep_token_spec (sp : Span) :
  is_Some (covered_text sp) →
  keep_token sp
  = if long_number sp then None else Some (negb (numeric_above_10 sp)).
Proof.
  intros [ct Hct]. unfold keep_token, numeric_above_10, long_number.
  rewrite Hct. simpl. rewrite <- isdigit_purely_numeric.
  destruct (Str.isdigit ct) eqn:Hd; simpl; [|done].
  rewrite (int_decimal_value _ Hd).
  repeat case_bool_decide; simpl; try done; try lia.
  all: f_equal; repeat case_bool_decide; simpl; try done; lia.
Qed.

Lemma filter_raising_Some {A} (cond : A → option bool) (p : A → bool) (l : list A) :
  Forall (λ x, cond x = Some (p x)) l →
  filter_raising cond l = Some (List.filter p l).
Proof.
  induction 1 as [|x l Hx _ IH]; simpl; [done|].
  rewrite Hx, IH. simpl. by destruct (p x).
Qed.

Lemma filter_raising_None {A} (cond : A → option bool) (l : list A) :
  filter_raising cond l = None ↔ Exists (λ x, cond x = None) l.
Proof.
  induction l as [|x l IH]; simpl.
  - split; [done|]. by intros ?%Exists_nil.
  - rewrite Exists_cons, <- IH.
    destruct (cond x) as [b|]; simpl; [|tauto].
    destruct (filter_raising cond l); simpl.
    + split; [done|]. intros [?|?]; done.
    + split; [by right|done].
Qed.

Lemma close_run_covered pos run :
  Forall (λ sp, is_Some (covered_text sp)) (Re.close_run pos run).
Proof. destruct run; simpl; repeat constructor; by eexists. Qed.

Lemma scan_covered cs : ∀ pos run,
  Forall (λ sp, is_Some (covered_text sp)) (Re.scan pos run cs).
Proof.
  induction cs as [|c cs IH]; intros pos run; simpl.
  - apply close_run_covered.
  - destruct (Re.is_word c); [apply IH|].
    apply Forall_app; split; [apply close_run_covered|apply IH].
Qed.

Lemma finditer_covered (s : string) :
  Forall (λ sp, is_Some (covered_text sp)) (Re.finditer_spans s).
Proof. apply scan_covered. Qed.

(** [tokenize] raises exactly on a token that [int] does not read. *)
Lemma tokenize_None (text : string) :
  tokenize text = None ↔ has_long_number text = true.
Proof.
  unfold tokenize, has_long_number.
  rewrite filter_raising_None, existsb_exists, Exists_exists.
  pose proof (finditer_covered (Str.lower text)) as Hcov.
  rewrite Forall_forall in Hcov.
  split.
  - intros (sp & Hin & Hk). exists sp. split; [by apply list_elem_of_In|].
    rewrite (keep_token_spec _ (Hcov _ Hin)) in Hk.
    by destruct (long_number sp).
  - intros (sp & Hin & Hl). apply list_elem_of_In in Hin. exists sp.
    split; [done|]. by rewrite (keep_token_spec _ (Hcov _ Hin)), Hl.
Qed.

Lemma tokenize_filter (text : string) :
  has_long_number text = false →
  tokenize text
  = Some (List.filter (λ sp, negb (numeric_above_10 sp))
                      (Re.finditer_spans (Str.lower text))).
Proof.
  unfold tokenize, has_long_number. intros Hno. apply filter_raising_Some.
  pose proof (finditer_covered (Str.lower text)) as Hcov.
  rewrite Forall_forall in Hcov |- *. intros sp Hin.
  rewrite (keep_token_spec _ (Hcov _ Hin)).
  destruct (long_number sp) eqn:Hl; [|done].
  assert (existsb long_number (Re.finditer_spans (Str.lower text)) = true)
    as Hex; [|congruence].
  apply existsb_exists. exists sp. split; [by apply list_elem_of_In|done].
Qed.

Lemma tokenize_Some (text : string) (spans : list Span) :
  tokenize text = Some spans →
  has_long_number text = false
  ∧ spans = List.filter (λ sp, negb (numeric_above_10 sp))
                        (Re.finditer_spans (Str.lower text)).
Proof.
  intros Htok.
  destruct (has_long_number text) eqn:Hl.
  - apply tokenize_None in Hl. congruence.
  - split; [done|]. rewrite (tokenize_filter _ Hl) in Htok. congruence.
Qed.

Lemma tokenize_covered (text : string) (spans : list Span) :
  tokenize text = Some spans → Forall (λ sp, is_Some (covered_text sp)) spans.
Proof.
  intros [_ ->]%tokenize_Some.
  induction (finditer_covered (Str.lower text)) as [|sp l Hsp _ IH];
    simpl; [done|].
  destruct (negb (numeric_above_10 sp)); [by constructor|done].
Qed.

(** *** Absent covered text *)

Lemma Admission_iter_elem (adm : Admission) (note : Note) (anno : Annotation) :
  (note, anno) ∈ Admission_iter adm
  ↔ note ∈ notes adm ∧ anno ∈ annotations note.
Proof.
  unfold Admission_iter. rewrite list_elem_of_bind. split.
  - intros (n & Hin & Hn). apply list_elem_of_fmap in Hin as (a & [= -> ->] & Ha).
    done.
  - intros [Hn Ha]. exists note. split; [|done].
    apply list_elem_of_fmap. by exists anno.
Qed.

Lemma key_set_None `{Countable K} (key : Note → Annotation → option K) adm :
  key_set key adm = None
  ↔ ∃ note anno, note ∈ notes adm ∧ anno ∈ annotations note
                 ∧ key note anno = None.
Proof.
  unfold key_set. rewrite fmap_None, mapM_None, Exists_exists. split.
  - intros ([n a] & Hin & Hk). apply Admission_iter_elem in Hin as [??].
    by exists n, a.
  - intros (n & a & Hn & Ha & Hk). exists (n, a). split; [|done].
    by apply Admission_iter_elem.
Qed.

Lemma count_unique_errors_None `{Countable K} actual predicted
    (key : Note → Annotation → option K) :
  _count_unique_errors actual predicted key = None
  ↔ key_set key actual = None ∨ key_set key predicted = None.
Proof.
  unfold _count_unique_errors.
  destruct (key_set key actual), (key_set key predicted); simpl;
    split; try tauto; try done; intros [?|?]; done.
Qed.

Lemma exact_match_error_returns (actual predicted : Admission) :
  is_Some (exact_match_error actual predicted).
Proof.
  unfold exact_match_error.
  destruct (_count_unique_errors _ _ _) eqn:Hc; [by eexists|].
  apply count_unique_errors_None in Hc as [Hc|Hc];
    apply key_set_None in Hc as (? & ? & ? & ? & ?); done.
Qed.

Lemma position_independent_error_None (actual predicted : Admission) :
  position_independent_error actual predicted = None
  ↔ has_absent_text actual ∨ has_absent_text predicted.
Proof.
  unfold position_independent_error, has_absent_text.
  rewrite count_unique_errors_None, !key_set_None.
  assert (∀ anno, (covered_text (span anno)
                   ≫= λ ct, Some (normalize ct, billing_code anno)) = None
                  ↔ covered_text (span anno) = None) as Hkey.
  { intros anno. by destruct (covered_text (span anno)). }
  by setoid_rewrite Hkey.
Qed.

Lemma tokenize_annotation_None (anno : Annotation) :
  tokenize_annotation anno tokenize = None
  ↔ covered_text (span anno) = None
    ∨ ∃ ct, covered_text (span anno) = Some ct ∧ has_long_number ct = true.
Proof.
  unfold tokenize_annotation.
  destruct (covered_text (span anno)) as [ct|]; simpl.
  - rewrite fmap_None, tokenize_None. split.
    + intros Hl. right. by exists ct.
    + intros [?|(ct' & [= <-] & Hl)]; done.
  - split; [by left|done].
Qed.

Lemma tokenize_annotation_covered (anno : Annotation) (tokens : list Annotation) :
  tokenize_annotation anno tokenize = Some tokens →
  Forall (λ t, is_Some (covered_text (span t))) tokens.
Proof.
  unfold tokenize_annotation.
  destruct (covered_text (span anno)) as [ct|]; simpl; [|done].
  destruct (tokenize ct) as [spans|] eqn:Ht; simpl; [|done].
  intros [= <-]. apply tokenize_covered in Ht.
  apply Forall_fmap. eapply Forall_impl; [exact Ht|]. by intros sp.
Qed.

Lemma tokenize_annotations_None (annos : list Annotation) :
  tokenize_annotations annos tokenize = None
  ↔ ∃ anno, anno ∈ annos
            ∧ (covered_text (span anno) = None
               ∨ ∃ ct, covered_text (span anno) = Some ct
                       ∧ has_long_number ct = true).
Proof.
  unfold tokenize_annotations. rewrite fmap_None, mapM_None, Exists_exists.
  by setoid_rewrite tokenize_annotation_None.
Qed.

Lemma tokenize_annotations_covered (annos tokens : list Annotation) :
  tokenize_annotations annos tokenize = Some tokens →
  Forall (λ t, is_Some (covered_text (span t))) tokens.
Proof.
  unfold tokenize_annotations. intros Hsome.
  apply fmap_Some in Hsome as (groups & Hm & ->).
  apply mapM_Some in Hm. apply Forall_concat.
  induction Hm as [|a g annos groups Ha _ IH]; constructor; [|done].
  by eapply tokenize_annotation_covered.
Qed.

Lemma tokenize_admission_None (adm : Admission) :
  tokenize_admission adm tokenize = None ↔ untokenizable adm.
Proof.
  unfold tokenize_admission, untokenizable, has_absent_text, has_long_number_text.
  rewrite fmap_None, mapM_None, Exists_exists.
  setoid_rewrite fmap_None. setoid_rewrite tokenize_annotations_None.
  split.
  - intros (note & Hn & anno & Ha & [Habs|(ct & Hct & Hl)]).
    + left. by exists note, anno.
    + right. by exists note, anno, ct.
  - intros [(note & anno & Hn & Ha & Habs)|(note & anno & ct & Hn & Ha & Hct & Hl)];
      exists note; (split; [done|]); exists anno; (split; [done|]).
    + by left.
    + right. by exists ct.
Qed.

Lemma tokenize_admission_covered (adm adm' : Admission) :
  tokenize_admission adm tokenize = Some adm' → ¬ has_absent_text adm'.
Proof.
  unfold tokenize_admission. intros Hsome (note & anno & Hn & Ha & Habs).
  apply fmap_Some in Hsome as (ns & Hm & ->). simpl in Hn.
  apply mapM_Some in Hm.
  induction Hm as [|n n' l l' Hnn' _ IH]; [by apply elem_of_nil in Hn|].
  apply elem_of_cons in Hn as [->|Hn]; [|by apply IH].
  apply fmap_Some in Hnn' as (tokens & Htok & ->). simpl in Ha.
  apply tokenize_annotations_covered in Htok.
  eapply Forall_forall in Htok; [|exact Ha].
  rewrite Habs in Htok. by destruct Htok.
Qed.

Lemma token_exact_match_error_None (actual predicted : Admission) :
  token_exact_match_error actual predicted tokenize = None
  ↔ untokenizable actual ∨ untokenizable predicted.
Proof.
  unfold token_exact_match_error.
  rewrite <- (tokenize_admission_None actual), <- (tokenize_admission_None predicted).
  destruct (tokenize_admission actual tokenize) as [a'|]; simpl; [|tauto].
  destruct (tokenize_admission predicted tokenize) as [p'|]; simpl; [|tauto].
  destruct (exact_match_error_returns a' p') as [e ->].
  split; [done|]. by intros [?|?].
Qed.

Lemma token_position_independent_error_None (actual predicted : Admission) :
  token_position_independent_error actual predicted tokenize = None
  ↔ untokenizable actual ∨ untokenizable predicted.
Proof.
  unfold token_position_independent_error.
  rewrite <- (tokenize_admission_None actual), <- (tokenize_admission_None predicted).
  destruct (tokenize_admission actual tokenize) as [a'|] eqn:Ea; simpl; [|tauto].
  destruct (tokenize_admission predicted tokenize) as [p'|] eqn:Ep; simpl; [|tauto].
  rewrite position_independent_error_None.
  apply tokenize_admission_covered in Ea, Ep.
  split; intros [?|?]; done.
Qed.



Lemma ascii_texts_Forall (adm : Admission) :
  Forall (λ note,
            Forall (λ anno, from_option isascii true (covered_text (span anno))
                            = true)
                   (annotations note))
         (notes adm) →
  ascii_texts adm.
Proof.
  intros Hall note anno ct Hn Ha Hct.
  rewrite Forall_forall in Hall. specialize (Hall note Hn).
  rewrite Forall_forall in Hall. specialize (Hall anno Ha).
  by rewrite Hct in Hall.
Qed.

Lemma absent_text_free (adm : Admission) :
  Forall (λ note,
            Forall (λ anno, is_Some (covered_text (span anno))) (annotations note))
         (notes adm) →
  ¬ has_absent_text adm.
Proof.
  intros Hall (note & anno & Hn & Ha & Habs).
  rewrite Forall_forall in Hall. specialize (Hall note Hn).
  rewrite Forall_forall in Hall. specialize (Hall anno Ha).
  rewrite Habs in Hall. by destruct Hall.
Qed.

Lemma long_number_free (adm : Admission) :
  Forall (λ note,
            Forall (λ anno, from_option has_long_number false
                              (covered_text (span anno)) = false)
                   (annotations note))
         (notes adm) →
  ¬ has_long_number_text adm.
Proof.
  intros Hall (note & anno & ct & Hn & Ha & Hct & Hl).
  rewrite Forall_forall in Hall. specialize (Hall note Hn).
  rewrite Forall_forall in Hall. specialize (Hall anno Ha).
  rewrite Hct in Hall. simpl in Hall. congruence.
Qed.

(** *** Trimming *)

Lemma string_get_lt (s : string) (n : nat) :
  (n < String.length s)%nat → is_Some (String.get n s).
Proof.
  revert n. induction s as [|c s IH]; intros n; simpl; [lia|].
  destruct n as [|n]; [by eexists|]. intros Hn. apply IH. lia.
Qed.

Lemma getitem_in_range (s : string) (i : Z) :
  0 ≤ i < Py.len s → is_Some (Py.getitem s i).
Proof.
  intros [Hlo Hhi]. unfold Py.getitem. rewrite bool_decide_eq_true_2 by done.
  apply string_get_lt. unfold Py.len in Hhi. lia.
Qed.

Lemma trim_left_spec (s : string) : ∀ (n : nat) (b : Z),
  0 ≤ b → b + Z.of_nat n ≤ Py.len s →
  ∃ b', trim_left n (Some s) b = Some b'
        ∧ b ≤ b' ≤ b + Z.of_nat n
        ∧ (∀ i, b ≤ i < b' → char_in s TRIM_L_CHARS i)
        ∧ (b' = b + Z.of_nat n ∨ char_out s TRIM_L_CHARS b').
Proof.
  induction n as [|n IH]; intros b Hb Hlen.
  - exists b. simpl. repeat split; try lia.
  - cbn [trim_left Py.text_getitem mbind option_bind].
    destruct (getitem_in_range s b ltac:(lia)) as [c Hc]. rewrite Hc.
    cbn [mbind option_bind]. unfold Py.mem. case_bool_decide as Hmem.
    + destruct (IH (b + 1) ltac:(lia) ltac:(lia))
        as (b' & Heq & Hrange & Hin & Hstop).
      exists b'. split; [done|]. split; [lia|]. split.
      * intros i Hi. destruct (decide (i = b)) as [->|Hne].
        -- by exists c.
        -- apply Hin. lia.
      * destruct Hstop as [->|Hout]; [left; lia|by right].
    + exists b. split; [done|]. split; [lia|]. split; [intros i; lia|].
      right. by exists c.
Qed.

Lemma trim_right_spec (s : string) : ∀ (n : nat) (e : Z),
  0 ≤ e - Z.of_nat n → e ≤ Py.len s →
  ∃ e', trim_right n (Some s) e = Some e'
        ∧ e - Z.of_nat n ≤ e' ≤ e
        ∧ (∀ i, e' ≤ i < e → char_in s TRIM_R_CHARS i)
        ∧ (e' = e - Z.of_nat n ∨ char_out s TRIM_R_CHARS (e' - 1)).
Proof.
  induction n as [|n IH]; intros e He Hlen.
  - exists e. simpl. repeat split; try lia.
  - cbn [trim_right Py.text_getitem mbind option_bind].
    destruct (getitem_in_range s (e - 1) ltac:(lia)) as [c Hc]. rewrite Hc.
    cbn [mbind option_bind]. unfold Py.mem. case_bool_decide as Hmem.
    + destruct (IH (e - 1) ltac:(lia) ltac:(lia))
        as (e' & Heq & Hrange & Hin & Hstop).
      exists e'. split; [done|]. split; [lia|]. split.
      * intros i Hi. destruct (decide (i = e - 1)) as [->|Hne].
        -- by exists c.
        -- apply Hin. lia.
      * destruct Hstop as [->|Hout]; [left; lia|by right].
    + exists e. split; [done|]. split; [lia|]. split; [intros i; lia|].
      right. by exists c.
Qed.

(** *** Trimming twice *)

(** Where the left loop stops, on any text. *)
Lemma trim_left_inv (text : option string) : ∀ (n : nat) (b b' : Z),
  trim_left n text b = Some b' →
  b ≤ b' ≤ b + Z.of_nat n
  ∧ (b' = b + Z.of_nat n
     ∨ ∃ c, Py.text_getitem text b' = Some c ∧ Py.mem c TRIM_L_CHARS = false).
Proof.
  induction n as [|n IH]; intros b b' Htrim.
  - injection Htrim as <-. lia.
  - cbn [trim_left] in Htrim.
    destruct (Py.text_getitem text b) as [c|] eqn:Hc;
      cbn [mbind option_bind] in Htrim; [|done].
    destruct (Py.mem c TRIM_L_CHARS) eqn:Hmem.
    + apply IH in Htrim as [Hrange [->|Hstop]]; [lia|].
      split; [lia|by right].
    + injection Htrim as <-. split; [lia|]. right. by exists c.
Qed.

Lemma trim_right_inv (text : option string) : ∀ (n : nat) (e e' : Z),
  trim_right n text e = Some e' →
  e - Z.of_nat n ≤ e' ≤ e
  ∧ (e' = e - Z.of_nat n
     ∨ ∃ c, Py.text_getitem text (e' - 1) = Some c
            ∧ Py.mem c TRIM_R_CHARS = false).
Proof.
  induction n as [|n IH]; intros e e' Htrim.
  - injection Htrim as <-. lia.
  - cbn [trim_right] in Htrim.
    destruct (Py.text_getitem text (e - 1)) as [c|] eqn:Hc;
      cbn [mbind option_bind] in Htrim; [|done].
    destruct (Py.mem c TRIM_R_CHARS) eqn:Hmem.
    + apply IH in Htrim as [Hrange [->|Hstop]]; [lia|].
      split; [lia|by right].
    + injection Htrim as <-. split; [lia|]. right. by exists c.
Qed.

(** A loop that starts where it has to stop does not move. *)
Lemma trim_left_stopped (text : option string) (n : nat) (b : Z) :
  n = O ∨ (∃ c, Py.text_getitem text b = Some c ∧ Py.mem c TRIM_L_CHARS = false) →
  trim_left n text b = Some b.
Proof.
  intros [->|(c & Hc & Hmem)]; [done|].
  destruct n as [|n]; [done|]. cbn [trim_left]. rewrite Hc.
  cbn [mbind option_bind]. by rewrite Hmem.
Qed.

Lemma trim_right_stopped (text : option string) (n : nat) (e : Z) :
  n = O
  ∨ (∃ c, Py.text_getitem text (e - 1) = Some c ∧ Py.mem c TRIM_R_CHARS = false) →
  trim_right n text e = Some e.
Proof.
  intros [->|(c & Hc & Hmem)]; [done|].
  destruct n as [|n]; [done|]. cbn [trim_right]. rewrite Hc.
  cbn [mbind option_bind]. by rewrite Hmem.
Qed.

Lemma do_trim_inv (text : option string) (sp sp1 : Span) :
  _do_trim text sp = Some sp1 →
  trim_left (Z.to_nat (end_ sp1 - begin sp1)) text (begin sp1) = Some (begin sp1)
  ∧ trim_right (Z.to_nat (end_ sp1 - begin sp1)) text (end_ sp1) = Some (end_ sp1)
  ∧ trimmed_text text (covered_text sp) (begin sp1) (end_ sp1)
    = Some (covered_text sp1).
Proof.
  unfold _do_trim. intros Htrim.
  apply bind_Some in Htrim as (b' & Hl & Htrim).
  apply bind_Some in Htrim as (e' & Hr & Htrim).
  apply bind_Some in Htrim as (ct' & Hct & [= <-]). cbn [begin end_ covered_text].
  apply trim_left_inv in Hl as [Hlr Hlstop].
  apply trim_right_inv in Hr as [Hrr Hrstop].
  split; [|split; [|done]].
  - apply trim_left_stopped. destruct Hlstop as [->|Hstop]; [left; lia|by right].
  - apply trim_right_stopped. destruct Hrstop as [->|Hstop]; [left; lia|by right].
Qed.

(** A second pass of [_do_trim] keeps the bounds; it keeps the covered text
    too, unless the first pass left the empty string. *)
Lemma do_trim_twice (text : option string) (sp sp1 : Span) :
  _do_trim text sp = Some sp1 →
  ∃ sp2, _do_trim text sp1 = Some sp2
         ∧ begin sp2 = begin sp1 ∧ end_ sp2 = end_ sp1
         ∧ covered_text sp2
           = (if Py.truthy (covered_text sp1) then covered_text sp1 else None).
Proof.
  intros Htrim. apply do_trim_inv in Htrim as (Hl & Hr & Hct).
  unfold _do_trim. rewrite Hl. cbn [mbind option_bind]. rewrite Hr.
  cbn [mbind option_bind]. unfold trimmed_text in Hct.
  destruct (Py.truthy (covered_text sp1)) eqn:Ht1.
  - destruct (Py.truthy (covered_text sp));
      [|injection Hct as Hct; by rewrite <- Hct in Ht1].
    destruct (Py.text_slice text (begin sp1) (end_ sp1)) as [t|]; [|done].
    injection Hct as Hct. cbn [fmap option_fmap option_map mbind option_bind].
    by eexists.
  - by eexists.
Qed.

Lemma truthy_false_inv (ct : option string) :
  Py.truthy ct = false → ct = None ∨ ct = Some "".
Proof.
  destruct ct as [s|]; [|by left]. simpl. intros Hs. right. f_equal.
  apply negb_false_iff in Hs. by apply String.eqb_eq in Hs.
Qed.

(** An annotation that was trimmed is returned as it is by a second pass,
    unless its covered text has become the empty string. *)
Lemma trim_annotation_twice (text : option string) (a a1 : Annotation) :
  trim_annotation text a = Some a1 →
  covered_text (span a1) ≠ Some "" →
  trim_annotation text a1 = Some a1.
Proof.
  unfold trim_annotation at 1. intros Htrim Hne.
  apply bind_Some in Htrim as (sp1 & Hsp1 & Htrim).
  assert (span a1 = sp1) as Hspan.
  { case_bool_decide as Hchg.
    - apply bind_Some in Htrim as (? & _ & [= <-]). done.
    - injection Htrim as <-. congruence. }
  destruct (do_trim_twice _ _ _ Hsp1) as (sp2 & Hsp2 & Hb & He & Hct).
  assert (sp2 = sp1) as ->.
  { destruct sp1 as [b1 e1 ct1], sp2 as [b2 e2 ct2]. cbn in *. subst b2 e2.
    f_equal. rewrite Hct. destruct (Py.truthy ct1) eqn:Ht; [done|].
    apply truthy_false_inv in Ht as [->| ->]; [done|]. by rewrite Hspan in Hne. }
  unfold trim_annotation. rewrite Hspan, Hsp2. cbn [mbind option_bind].
  by rewrite bool_decide_eq_false_2 by (intros Hn; by apply Hn).
Qed.

(** Trimming a trimmed note returns it, as long as the first pass has left
    no empty covered text. *)
Lemma trim_annotations_in_note_twice (note note1 : Note) :
  trim_annotations_in_note note = Some note1 →
  Forall (λ a, covered_text (span a) ≠ Some "") (annotations note1) →
  trim_annotations_in_note note1 = Some note1.
Proof.
  unfold trim_annotations_in_note at 1. intros Htrim.
  apply bind_Some in Htrim as (annos1 & Hm & [= <-]).
  cbn [annotations]. intros Hne.
  unfold trim_annotations_in_note. cbn [annotations text replace_annotations].
  apply mapM_Some in Hm.
  assert (mapM (trim_annotation (text note)) annos1 = Some annos1) as ->; [|done].
  apply mapM_Some.
  induction Hm as [|a a1 l l1 Ha _ IH]; [constructor|].
  apply Forall_cons in Hne as [Hne1 Hne].
  constructor; [by eapply trim_annotation_twice|by apply IH].
Qed.

(** *** Sorting by [begin] *)

Lemma insert_by_begin_Permutation a l : Permutation (a :: l) (insert_by_begin a l).
Proof.
  induction l as [|b l IH]; simpl; [done|].
  case_bool_decide; [done|].
  rewrite perm_swap. by apply perm_skip.
Qed.

Lemma sorted_by_begin_Permutation l : Permutation l (sorted_by_begin l).
Proof.
  induction l as [|a l IH]; simpl; [done|].
  rewrite <- insert_by_begin_Permutation. by apply perm_skip.
Qed.

Lemma sorted_by_begin_length l : length (sorted_by_begin l) = length l.
Proof. symmetry. apply Permutation_length, sorted_by_begin_Permutation. Qed.

Lemma insert_by_begin_Forall (P : Annotation → Prop) a l :
  P a → Forall P l → Forall P (insert_by_begin a l).
Proof.
  intros Ha Hl. eapply Permutation_Forall; [apply insert_by_begin_Permutation|].
  by constructor.
Qed.

Lemma insert_by_begin_sorted a l :
  StronglySorted begin_le l → StronglySorted begin_le (insert_by_begin a l).
Proof.
  induction 1 as [|b l Hl IH Hb]; simpl; [repeat constructor|].
  case_bool_decide as Hab.
  - constructor; [by constructor|]. constructor; [done|].
    eapply Forall_impl; [exact Hb|]. unfold begin_le in *. intros c Hc. lia.
  - constructor; [done|]. apply insert_by_begin_Forall; [|done].
    unfold begin_le. lia.
Qed.

Lemma sorted_by_begin_sorted l : StronglySorted begin_le (sorted_by_begin l).
Proof.
  induction l as [|a l IH]; simpl; [constructor|]. by apply insert_by_begin_sorted.
Qed.

(** A list that is in order already is returned as it is. *)
Lemma sorted_by_begin_id l : StronglySorted begin_le l → sorted_by_begin l = l.
Proof.
  induction 1 as [|a l Hl IH Ha]; simpl; [done|]. rewrite IH.
  destruct Ha as [|b l Hab _]; simpl; [done|].
  by rewrite bool_decide_eq_true_2.
Qed.

(** *** The merge loop *)

Lemma merge_Some_inv left right note_text m :
  _merge left right note_text = Some m →
  begin (span m) = begin (span left) ∧ end_ (span m) = end_ (span right)
  ∧ billing_code m = billing_code left.
Proof.
  unfold _merge. intros Hm. apply bind_Some in Hm as (ct & _ & [= <-]). done.
Qed.

Lemma merge_text_present left right s : is_Some (_merge left right (Some s)).
Proof. unfold _merge. by destruct (Py.truthy _); simpl; eexists. Qed.

Lemma set_last_snoc pre prev m : set_last (pre ++ [prev]) m = pre ++ [m].
Proof.
  unfold set_last. rewrite length_app. simpl.
  replace (Nat.pred (length pre + 1)) with (length pre + 0)%nat by lia.
  by rewrite insert_app_r.
Qed.

(** One iteration, by the outcome of the test. *)
Lemma merge_step_snoc note_text pre previous current :
  merge_step note_text (pre ++ [previous]) current
  = b ← merge_test note_text previous current;
    if b : bool
    then m ← _merge previous current note_text; Some (pre ++ [m])
    else Some ((pre ++ [previous]) ++ [current]).
Proof.
  unfold merge_step, merge_test. rewrite last_snoc. simpl.
  case_bool_decide; [|done].
  destruct (Py.text_slice note_text _ _) as [connecting|]; simpl; [|done].
  destruct (_is_non_breaking connecting); [|done].
  destruct (_merge previous current note_text); simpl; [|done].
  by rewrite set_last_snoc.
Qed.

(** The test reads the end of the previous annotation, the begin of the
    current one, and their codes. *)
Lemma merge_test_ext note_text previous current current' :
  begin (span current') = begin (span current) →
  billing_code current' = billing_code current →
  merge_test note_text previous current' = merge_test note_text previous current.
Proof. unfold merge_test. by intros -> ->. Qed.

(** A settled list goes through the loop unchanged. *)
Lemma merge_loop_settled note_text : ∀ rest pre previous,
  settled note_text (previous :: rest) →
  merge_loop note_text (pre ++ [previous]) rest = Some (pre ++ previous :: rest).
Proof.
  induction rest as [|current rest IH]; intros pre previous Hs.
  - done.
  - destruct Hs as [Htest Hs]. cbn [merge_loop].
    rewrite merge_step_snoc, Htest. cbn [mbind option_bind].
    rewrite IH by done. by rewrite <- app_assoc.
Qed.

(** What the loop returns on a list in order: a settled list in order that is
    no longer, and begins as the accumulated annotation does. *)
Lemma merge_loop_inv note_text : ∀ rest pre previous out,
  StronglySorted begin_le (previous :: rest) →
  merge_loop note_text (pre ++ [previous]) rest = Some out →
  ∃ first out',
    out = pre ++ first :: out'
    ∧ begin (span first) = begin (span previous)
    ∧ billing_code first = billing_code previous
    ∧ settled note_text (first :: out')
    ∧ StronglySorted begin_le (first :: out')
    ∧ (length out' ≤ length rest)%nat.
Proof.
  induction rest as [|current rest IH]; intros pre previous out Hsorted Hloop.
  - injection Hloop as <-. exists previous, []. repeat split; try done.
  - cbn [merge_loop] in Hloop. rewrite merge_step_snoc in Hloop.
    apply StronglySorted_inv in Hsorted as [Hrest Hprev].
    apply Forall_cons in Hprev as [Hpc Hprev].
    destruct (merge_test note_text previous current) as [[]|] eqn:Htest;
      cbn [mbind option_bind] in Hloop; [| |done].
    + destruct (_merge previous current note_text) as [m|] eqn:Hm;
        cbn [mbind option_bind] in Hloop; [|done].
      apply merge_Some_inv in Hm as (Hmb & _ & Hmc).
      destruct (IH pre m out) as (first & out' & -> & Hb & Hc & Hs & Hso & Hlen);
        [|done|].
      { apply StronglySorted_inv in Hrest as [Hrest _].
        constructor; [done|].
        eapply Forall_impl; [exact Hprev|]. unfold begin_le. intros c. lia. }
      exists first, out'. repeat split; try done; try congruence.
      simpl. lia.
    + destruct (IH (pre ++ [previous]) current out)
        as (first & out' & -> & Hb & Hc & Hs & Hso & Hlen); [done..|].
      exists previous, (first :: out'). rewrite <- app_assoc.
      repeat split; try done.
      * by rewrite (merge_test_ext _ _ current first).
      * constructor; [done|].
        apply StronglySorted_inv in Hso as [_ Hfirst].
        constructor; [unfold begin_le in *; lia|].
        eapply Forall_impl; [exact Hfirst|]. unfold begin_le in *. intros c. lia.
      * simpl. lia.
Qed.

Lemma is_non_breaking_spec (connecting : string) :
  _is_non_breaking connecting
  = forallb (λ c, bool_decide (c ∈ Py.punctuation ∨ c ∈ Py.whitespace))
            (Py.chars connecting).
Proof.
  unfold _is_non_breaking, Py.mem, _NON_BREAKING_CHARS.
  induction (Py.chars connecting) as [|c cs IH]; [done|].
  cbn [forallb]. rewrite IH. f_equal.
  apply bool_decide_ext. apply elem_of_app.
Qed.

Lemma merge_test_eligible s previous current :
  merge_test (Some s) previous current
  = Some (merge_eligible s (bounds_code previous) (bounds_code current)).
Proof.
  unfold merge_test, merge_eligible, bounds_code. cbn [fst snd].
  case_bool_decide; [|done].
  cbn [Py.text_slice fmap option_fmap option_map andb]. f_equal.
  apply is_non_breaking_spec.
Qed.

(** The loop of [_merge_adjacent] is the walk of the specification. *)
Lemma merge_loop_walk s : ∀ rest pre previous,
  ∃ out, merge_loop (Some s) (pre ++ [previous]) rest = Some (pre ++ out)
         ∧ bounds_code <$> out
           = merge_walk s (bounds_code previous) (bounds_code <$> rest).
Proof.
  induction rest as [|current rest IH]; intros pre previous.
  - by exists [previous].
  - cbn [merge_loop]. rewrite merge_step_snoc, merge_test_eligible.
    cbn [mbind option_bind fmap list_fmap merge_walk].
    destruct (merge_eligible s _ _).
    + destruct (merge_text_present previous current s) as [m Hm]. rewrite Hm.
      cbn [mbind option_bind].
      apply merge_Some_inv in Hm as (Hb & He & Hc).
      destruct (IH pre m) as (out & -> & Hout). exists out. split; [done|].
      rewrite Hout. unfold bounds_code at 1. by rewrite Hb, He, Hc.
    + cbn [mbind option_bind].
      destruct (IH (pre ++ [previous]) current) as (out & -> & Hout).
      exists (previous :: out). rewrite <- app_assoc. split; [done|].
      cbn [fmap list_fmap]. by rewrite <- Hout.
Qed.

Lemma merge_adjacent_walk (s : string) (annos : list Annotation) :
  (2 ≤ length annos)%nat →
  ∃ merged, _merge_adjacent annos (Some s) = Some merged
            ∧ bounds_code <$> merged
              = merge_walk_all s (bounds_code <$> sorted_by_begin annos).
Proof.
  intros Hlen. unfold _merge_adjacent.
  rewrite bool_decide_eq_false_2 by lia.
  destruct (sorted_by_begin annos) as [|first rest] eqn:Hs.
  - pose proof (sorted_by_begin_length annos) as Hl. rewrite Hs in Hl.
    simpl in Hl. lia.
  - destruct (merge_loop_walk s rest [] first) as (out & Hout & Hwalk).
    exists out. by split.
Qed.

(** *** Merging twice *)

Lemma merge_adjacent_inv annos note_text merged :
  (2 ≤ length annos)%nat →
  _merge_adjacent annos note_text = Some merged →
  settled note_text merged ∧ StronglySorted begin_le merged
  ∧ (length merged ≤ length annos)%nat.
Proof.
  intros Hlen. unfold _merge_adjacent.
  rewrite bool_decide_eq_false_2 by lia.
  pose proof (sorted_by_begin_sorted annos) as Hsorted.
  pose proof (sorted_by_begin_length annos) as Hl.
  destruct (sorted_by_begin annos) as [|first rest]; [done|].
  intros Hloop.
  destruct (merge_loop_inv note_text rest [] first merged Hsorted Hloop)
    as (f & out' & -> & _ & _ & Hs & Hso & Hle).
  simpl in *. repeat split; try done. lia.
Qed.

Lemma merge_adjacent_settled annos note_text :
  settled note_text annos → StronglySorted begin_le annos →
  _merge_adjacent annos note_text = Some annos.
Proof.
  intros Hs Hso. unfold _merge_adjacent. case_bool_decide; [done|].
  rewrite sorted_by_begin_id by done.
  destruct annos as [|first rest]; [simpl in *; lia|].
  by apply (merge_loop_settled note_text rest []).
Qed.

Lemma merge_adjacent_in_note_idempotent (note note' : Note) :
  merge_adjacent_in_note note = Some note' →
  merge_adjacent_in_note note' = Some note'.
Proof.
  unfold merge_adjacent_in_note at 1. case_bool_decide as Hlen.
  { by intros [= <-]; unfold merge_adjacent_in_note; rewrite bool_decide_eq_true_2. }
  destruct (_merge_adjacent (annotations note) (text note)) as [new_annos|] eqn:Hm;
    cbn [mbind option_bind]; [|done].
  case_bool_decide as Hshorter; intros [= <-].
  - apply merge_adjacent_inv in Hm as (Hs & Hso & _); [|lia].
    unfold merge_adjacent_in_note. cbn [annotations text replace_annotations].
    case_bool_decide; [done|].
    rewrite merge_adjacent_settled by done. cbn [mbind option_bind].
    by rewrite bool_decide_eq_false_2 by lia.
  - unfold merge_adjacent_in_note. rewrite bool_decide_eq_false_2 by done.
    rewrite Hm. cbn [mbind option_bind]. by rewrite bool_decide_eq_false_2.
Qed.

Lemma merge_adjacent_in_note_returns (note : Note) :
  is_Some (text note) → is_Some (merge_adjacent_in_note note).
Proof.
  intros [s Hs]. unfold merge_adjacent_in_note. case_bool_decide; [by eexists|].
  rewrite Hs.
  destruct (merge_adjacent_walk s (annotations note)) as (merged & -> & _); [lia|].
  cbn [mbind option_bind]. case_bool_decide; by eexists.
Qed.

(** * The claims *)

Import Examples.

(** C1: on a note with text and at least two annotations, [_merge_adjacent]
    sorts the annotations by [begin], ascending, and then walks them from
    left to right: the current annotation is merged into the last accumulated
    one exactly when their billing codes are equal and the note text strictly
    between the previous end and the current begin holds nothing but
    punctuation and whitespace, the merged span being [left's begin, right's
    end].  Over "foo, bar", the same-code annotations [0,3) and [5,8) merge
    into [0,8), and with different codes they do not merge. *)
Theorem merge_adjacent_sorts_and_walks :
  (∀ (s : string) (annos : list Annotation),
     (2 ≤ length annos)%nat →
     Permutation annos (sorted_by_begin annos)
     ∧ StronglySorted begin_le (sorted_by_begin annos)
     ∧ ∃ merged,
         _merge_adjacent annos (Some s) = Some merged
         ∧ bounds_code <$> merged
           = merge_walk_all s (bounds_code <$> sorted_by_begin annos))
  ∧ _merge_adjacent [foo_A; bar_A] (Some "foo, bar") = Some [foo_bar_A]
  ∧ merge_adjacent_in_note (note_of [foo_A; bar_A]) = Some (note_of [foo_bar_A])
  ∧ _merge_adjacent [foo_A; bar_B] (Some "foo, bar") = Some [foo_A; bar_B]
  ∧ merge_adjacent_in_note (note_of [foo_A; bar_B]) = Some (note_of [foo_A; bar_B]).
Proof.
  split; [|repeat split; reflexivity].
  intros s annos Hlen. split; [apply sorted_by_begin_Permutation|].
  split; [apply sorted_by_begin_sorted|].
  by apply merge_adjacent_walk.
Qed.

Lemma merge_adjacent_sorts_and_walks_witness :
  (2 ≤ length [bar_A; foo_A])%nat
  ∧ ∃ merged,
      _merge_adjacent [bar_A; foo_A] (Some "foo, bar") = Some merged
      ∧ bounds_code <$> merged
        = merge_walk_all "foo, bar" (bounds_code <$> sorted_by_begin [bar_A; foo_A]).
Proof.
  split; [simpl; lia|].
  apply (proj1 merge_adjacent_sorts_and_walks "foo, bar" [bar_A; foo_A]).
  simpl; lia.
Defined.

(** C2: for a span that lies within the note text, [_do_trim] moves the left
    boundary forward while the character at it is one of [")-.,/ "], newline
    and tab, and then moves the right boundary back while the character
    before it is one of ["(-.,/ "], newline and tab; either boundary stops at
    a character outside of its set, or where the span is empty.  The span
    [0,5) over "(abc)" is left as it is: "(" is not in the left set and ")" is
    not in the right set. *)
Theorem do_trim_boundaries :
  (∀ c, c ∈ TRIM_L_CHARS
        ↔ c ∈ Py.chars ")-.,/ " ∨ c = Py.newline ∨ c = Py.tab)
  ∧ (∀ c, c ∈ TRIM_R_CHARS
          ↔ c ∈ Py.chars "(-.,/ " ∨ c = Py.newline ∨ c = Py.tab)
  ∧ (∀ (s : string) (sp : Span),
       0 ≤ begin sp ≤ end_ sp → end_ sp ≤ Py.len s →
       ∃ new_span,
         _do_trim (Some s) sp = Some new_span
         ∧ begin sp ≤ begin new_span ≤ end_ new_span
         ∧ end_ new_span ≤ end_ sp
         ∧ (∀ i, begin sp ≤ i < begin new_span → char_in s TRIM_L_CHARS i)
         ∧ (begin new_span = end_ sp ∨ char_out s TRIM_L_CHARS (begin new_span))
         ∧ (∀ i, end_ new_span ≤ i < end_ sp → char_in s TRIM_R_CHARS i)
         ∧ (end_ new_span = begin new_span
            ∨ char_out s TRIM_R_CHARS (end_ new_span - 1)))
  ∧ _do_trim (Some "(abc)") (mkSpan 0 5 (Some "(abc)"))
    = Some (mkSpan 0 5 (Some "(abc)")).
Proof.
  split; [|split; [|split; [|reflexivity]]].
  - intros c. unfold TRIM_L_CHARS, TRIM_CHARS. simpl.
    rewrite !elem_of_cons, elem_of_nil. tauto.
  - intros c. unfold TRIM_R_CHARS, TRIM_CHARS. simpl.
    rewrite !elem_of_cons, elem_of_nil. tauto.
  - intros s [b e ct] [Hb Hbe] He. simpl in *. unfold _do_trim. simpl.
    destruct (trim_left_spec s (Z.to_nat (e - b)) b ltac:(lia) ltac:(lia))
      as (b' & -> & Hb' & Hl & Hlstop).
    simpl.
    destruct (trim_right_spec s (Z.to_nat (e - b')) e ltac:(lia) ltac:(lia))
      as (e' & -> & He' & Hr & Hrstop).
    simpl.
    exists (mkSpan b' e' (if Py.truthy ct then Some (Py.slice s b' e') else None)).
    split; [by destruct (Py.truthy ct)|].
    cbn [begin end_]. split; [lia|]. split; [lia|]. split; [done|]. split.
    { destruct Hlstop as [->|?]; [left; lia|by right]. }
    split; [done|].
    destruct Hrstop as [->|?]; [left; lia|by right].
Qed.

Lemma do_trim_boundaries_witness :
  0 ≤ 0 ≤ 5 ∧ 5 ≤ Py.len "(abc)"
  ∧ ∃ new_span,
      _do_trim (Some "(abc)") (mkSpan 0 5 (Some "(abc)")) = Some new_span
      ∧ begin new_span = 0 ∧ end_ new_span = 5.
Proof.
  assert (0 ≤ 0 ≤ 5) as Hb by lia.
  assert (5 ≤ Py.len "(abc)") as He by (vm_compute; discriminate).
  split; [exact Hb|]. split; [exact He|].
  destruct (proj1 (proj2 (proj2 do_trim_boundaries)) "(abc)"
              (mkSpan 0 5 (Some "(abc)")) Hb He)
    as (new_span & Htrim & _).
  exists new_span. split; [exact Htrim|].
  injection Htrim as <-. split; reflexivity.
Defined.







(** C5: merging adjacent annotations twice is merging them once.
    [merge_adjacent_in_note] returns on every note that has its text, and
    applied to a note it returned, it returns that note again; what
    [_merge_adjacent] returns is in order, has no annotation that can be
    merged into the one before it, and is returned unchanged by a second
    pass. *)
Theorem merge_adjacent_idempotent :
  (∀ note, is_Some (text note) → is_Some (merge_adjacent_in_note note))
  ∧ (∀ note note',
       merge_adjacent_in_note note = Some note' →
       merge_adjacent_in_note note' = Some note')
  ∧ (∀ annos note_text merged,
       (2 ≤ length annos)%nat →
       _merge_adjacent annos note_text = Some merged →
       settled note_text merged
       ∧ _merge_adjacent merged note_text = Some merged).
Proof.
  split; [apply merge_adjacent_in_note_returns|].
  split; [apply merge_adjacent_in_note_idempotent|].
  intros annos note_text merged Hlen Hm.
  apply merge_adjacent_inv in Hm as (Hs & Hso & _); [|done].
  split; [done|]. by apply merge_adjacent_settled.
Qed.

Lemma merge_adjacent_idempotent_witness :
  merge_adjacent_in_note (note_of [bar_A; foo_A]) = Some (note_of [foo_bar_A])
  ∧ merge_adjacent_in_note (note_of [foo_bar_A]) = Some (note_of [foo_bar_A]).
Proof.
  split; [reflexivity|].
  apply (proj1 (proj2 merge_adjacent_idempotent) (note_of [bar_A; foo_A])).
  reflexivity.
Defined.

(** C6: trimming twice is not trimming once.  The separator of "foo, bar",
    annotated on its own, is trimmed to the empty span [5,5) with the empty
    covered text; a second pass keeps the bounds and drops the covered
    text.  A second pass changes nothing else: see
    [trim_annotations_in_note_twice]. *)
Theorem trim_twice_differs :
  trim_annotations_in_note (note_of [separator_B])
  = Some (note_of [mkAnnotation (mkSpan 5 5 (Some "")) code_B "human"])
  ∧ trim_annotations_in_note
      (note_of [mkAnnotation (mkSpan 5 5 (Some "")) code_B "human"])
    = Some (note_of [mkAnnotation (mkSpan 5 5 None) code_B "human"])
  ∧ note_of [mkAnnotation (mkSpan 5 5 None) code_B "human"]
    ≠ note_of [mkAnnotation (mkSpan 5 5 (Some "")) code_B "human"].
Proof. repeat split; [reflexivity..|discriminate]. Qed.

(** C7: error rates add up componentwise, so their addition is commutative
    and associative, and the totals that [observe] accumulates over a
    sequence of admission pairs do not depend on the order of the pairs: a
    permuted sequence raises when the sequence does, and otherwise leaves the
    same four totals. *)
Theorem error_rates_order_invariant :
  (∀ a b, ErrorRate_add a b = ErrorRate_add b a)
  ∧ (∀ a b c,
       ErrorRate_add a (ErrorRate_add b c) = ErrorRate_add (ErrorRate_add a b) c)
  ∧ (∀ tokenize_fn self pairs pairs',
       Permutation pairs pairs' →
       observe_all tokenize_fn self pairs = observe_all tokenize_fn self pairs').
Proof.
  split; [apply ErrorRate_add_comm|]. split; [apply ErrorRate_add_assoc|].
  intros tokenize_fn self pairs pairs' Hperm. by apply observe_all_Permutation.
Qed.

Lemma error_rates_order_invariant_witness :
  Permutation
    [(admission_of [foo_A], admission_of [foo_A; bar_B]);
     (admission_of [bar_A], admission_of [])]
    [(admission_of [bar_A], admission_of []);
     (admission_of [foo_A], admission_of [foo_A; bar_B])]
  ∧ observe_all tokenize AllErrorRates_init
      [(admission_of [foo_A], admission_of [foo_A; bar_B]);
       (admission_of [bar_A], admission_of [])]
    = observe_all tokenize AllErrorRates_init
        [(admission_of [bar_A], admission_of []);
         (admission_of [foo_A], admission_of [foo_A; bar_B])].
Proof.
  split; [apply perm_swap|].
  apply (proj2 (proj2 error_rates_order_invariant)). apply perm_swap.
Defined.

(** C9: what [_merge] does with the covered text.  The merged text is read
    from the note when the left covered text is a non-empty string, and is
    absent when the left covered text is absent or empty: an empty covered
    text on the left is dropped, although it is present. *)
Theorem merge_drops_empty_covered_text :
  (∀ left right s,
     _merge left right (Some s)
     = Some (replace_span left
               (mkSpan (begin (span left)) (end_ (span right))
                  (if Py.truthy (covered_text (span left))
                   then Some (Py.slice s (begin (span left)) (end_ (span right)))
                   else None))))
  ∧ covered_text (span empty_A) = Some ""
  ∧ _merge empty_A bar_A (Some "foo, bar")
    = Some (mkAnnotation (mkSpan 3 8 None) code_A "human")
  ∧ merge_adjacent_in_note (note_of [empty_A; bar_A])
    = Some (note_of [mkAnnotation (mkSpan 3 8 None) code_A "human"]).
Proof.
  split; [|repeat split; reflexivity].
  intros left right s. unfold _merge. by destruct (Py.truthy _).
Qed.

(** C10: [position_independent_error] lower-cases the covered text of every
    annotation and checks none: as soon as an annotation of the actual or of
    the predicted admission has no covered text, it raises and returns no
    counts. *)
Theorem position_independent_error_raises (actual predicted : Admission) :
  has_absent_text actual ∨ has_absent_text predicted →
  position_independent_error actual predicted = None.
Proof. apply position_independent_error_None. Qed.

Lemma position_independent_error_raises_witness :
  (has_absent_text (admission_of [foo_A]) ∨ has_absent_text (admission_of [bare_A]))
  ∧ position_independent_error (admission_of [foo_A]) (admission_of [bare_A]) = None.
Proof.
  assert (has_absent_text (admission_of [foo_A])
          ∨ has_absent_text (admission_of [bare_A])) as H.
  { right. exists (note_of [bare_A]), bare_A.
    split; [apply list_elem_of_here|]. split; [apply list_elem_of_here|reflexivity]. }
  split; [exact H|]. exact (position_independent_error_raises _ _ H).
Defined.

(** * Further properties *)

(** *** Counting over sets of keys *)

Section counts.
Context `{Countable K}.
Implicit Types A P : gset K.

Lemma size_inter_difference A P : (size (A ∩ P) + size (P ∖ A) = size P)%nat.
Proof.
  rewrite <- size_union by (set_unfold; tauto). f_equal. apply set_eq. intros x.
  destruct (decide (x ∈ A)); set_unfold; tauto.
Qed.

Lemma size_inter_difference_l A P : (size (A ∩ P) + size (A ∖ P) = size A)%nat.
Proof.
  rewrite <- size_union by (set_unfold; tauto). f_equal. apply set_eq. intros x.
  destruct (decide (x ∈ P)); set_unfold; tauto.
Qed.

Lemma size_three_parts A P :
  (size (A ∩ P) + size (P ∖ A) + size (A ∖ P) = size (A ∪ P))%nat.
Proof.
  pose proof (size_union_alt A P). pose proof (size_inter_difference_l A P).
  pose proof (size_inter_difference A P). lia.
Qed.

Lemma count_unique_errors_Some (actual predicted : Admission)
    (key : Note → Annotation → option K) A P :
  key_set key actual = Some A → key_set key predicted = Some P →
  _count_unique_errors actual predicted key
  = Some (mkErrorRate (Z.of_nat (size (A ∩ P))) (Z.of_nat (size (P ∖ A)))
                      (Z.of_nat (size (A ∖ P)))).
Proof. unfold _count_unique_errors. by intros -> ->. Qed.

Lemma count_unique_errors_swap (actual predicted : Admission)
    (key : Note → Annotation → option K) :
  _count_unique_errors predicted actual key
  = ErrorRate_swap <$> _count_unique_errors actual predicted key.
Proof.
  unfold _count_unique_errors.
  destruct (key_set key actual) as [A|], (key_set key predicted) as [P|];
    simpl; try done.
  unfold ErrorRate_swap. simpl.
  assert (P ∩ A = A ∩ P) as ->; [|done].
  apply set_eq. intros x. set_unfold. tauto.
Qed.

End counts.

Lemma exact_key_set (adm : Admission) :
  key_set (λ note anno, Some (note_id note, anno)) adm = Some (exact_keys adm).
Proof.
  unfold key_set, exact_keys.
  assert (mapM (λ na : Note * Annotation, Some (note_id na.1, na.2))
               (Admission_iter adm)
          = Some (exact_key <$> Admission_iter adm)) as ->; [|done].
  apply mapM_Some. induction (Admission_iter adm); constructor; done.
Qed.

Section key_sets.
Context `{Countable K}.

Lemma key_set_Some_elem (key : Note → Annotation → option K) adm (A : gset K) :
  key_set key adm = Some A →
  ∀ x, x ∈ A ↔ ∃ note anno, (note, anno) ∈ Admission_iter adm
                            ∧ key note anno = Some x.
Proof.
  unfold key_set. intros Hk x.
  apply fmap_Some in Hk as (ks & Hm & ->). rewrite elem_of_list_to_set.
  apply mapM_Some in Hm.
  induction Hm as [|[note anno] k l ks Hk _ IH].
  - split; [by intros ?%elem_of_nil|]. by intros (? & ? & ?%elem_of_nil & _).
  - rewrite elem_of_cons, IH. split.
    + intros [->|(n & a & Hin & Hx)].
      * exists note, anno. split; [apply list_elem_of_here|done].
      * exists n, a. split; [by apply list_elem_of_further|done].
    + intros (n & a & Hin & Hx). apply elem_of_cons in Hin as [[= -> ->]|Hin].
      * left. simpl in Hk. congruence.
      * right. by exists n, a.
Qed.

Lemma key_set_is_Some (key : Note → Annotation → option K) adm :
  is_Some (key_set key adm)
  ↔ ∀ note anno, (note, anno) ∈ Admission_iter adm → is_Some (key note anno).
Proof.
  unfold key_set. rewrite fmap_is_Some, mapM_is_Some, Forall_forall. split.
  - intros Hall note anno Hin. apply (Hall (note, anno) Hin).
  - intros Hall [note anno] Hin. by apply Hall.
Qed.

Lemma count_unique_errors_self (key : Note → Annotation → option K) adm A :
  key_set key adm = Some A →
  _count_unique_errors adm adm key = Some (mkErrorRate (Z.of_nat (size A)) 0 0).
Proof.
  intros HA. rewrite (count_unique_errors_Some _ _ _ A A) by done.
  assert (A ∩ A = A) as -> by (apply set_eq; intros x; set_unfold; tauto).
  assert (A ∖ A = ∅) as -> by (apply set_eq; intros x; set_unfold; tauto).
  by rewrite size_empty.
Qed.

End key_sets.

(** X1. When both key sets can be built, [_count_unique_errors] counts the
    common keys as true positives: [n_actual] and [n_pred] are the numbers of
    distinct keys of the two admissions and [total] the number of distinct
    keys of both.  Repeated keys count once, so neither [n_actual] nor
    [n_pred] exceeds the number of annotations iterated over. *)
Theorem count_unique_errors_accounting `{Countable K}
    (key : Note → Annotation → option K) (actual predicted : Admission)
    (A P : gset K) :
  key_set key actual = Some A → key_set key predicted = Some P →
  ∃ e, _count_unique_errors actual predicted key = Some e
       ∧ true_positives e = Z.of_nat (size (A ∩ P))
       ∧ n_actual e = Z.of_nat (size A)
       ∧ n_pred e = Z.of_nat (size P)
       ∧ total e = Z.of_nat (size (A ∪ P))
       ∧ n_actual e ≤ Z.of_nat (length (Admission_iter actual))
       ∧ n_pred e ≤ Z.of_nat (length (Admission_iter predicted)).
Proof.
  intros HA HP. eexists. split; [by apply count_unique_errors_Some|].
  unfold n_actual, n_pred, total. simpl.
  pose proof (size_inter_difference A P). pose proof (size_inter_difference_l A P).
  pose proof (size_three_parts A P).
  assert (∀ adm (S : gset K), key_set key adm = Some S →
            (size S ≤ length (Admission_iter adm))%nat) as Hle.
  { intros adm S HS. unfold key_set in HS.
    apply fmap_Some in HS as (ks & Hm & ->).
    apply length_mapM in Hm. rewrite Hm.
    clear. induction ks as [|k ks IH].
    { rewrite list_to_set_nil, size_empty. simpl. lia. }
    rewrite list_to_set_cons. cbn [length].
    pose proof (size_union_alt (C:=gset K) {[k]} (list_to_set ks)) as Hu.
    rewrite size_singleton in Hu.
    pose proof (subseteq_size (C:=gset K) (list_to_set ks ∖ {[k]}) (list_to_set ks)
                  ltac:(set_unfold; tauto)).
    lia. }
  pose proof (Hle _ _ HA). pose proof (Hle _ _ HP).
  repeat split; lia.
Qed.

Lemma count_unique_errors_accounting_witness :
  key_set (λ note anno, Some (note_id note, anno)) (admission_of [foo_A; bar_A])
  = Some (exact_keys (admission_of [foo_A; bar_A]))
  ∧ key_set (λ note anno, Some (note_id note, anno)) (admission_of [foo_A; bar_B])
    = Some (exact_keys (admission_of [foo_A; bar_B]))
  ∧ ∃ e,
      _count_unique_errors (admission_of [foo_A; bar_A])
        (admission_of [foo_A; bar_B]) (λ note anno, Some (note_id note, anno))
      = Some e
      ∧ true_positives e = 1 ∧ n_actual e = 2 ∧ n_pred e = 2 ∧ total e = 3.
Proof.
  assert (key_set (λ note anno, Some (note_id note, anno))
            (admission_of [foo_A; bar_A])
          = Some (exact_keys (admission_of [foo_A; bar_A]))) as HA
    by reflexivity.
  assert (key_set (λ note anno, Some (note_id note, anno))
            (admission_of [foo_A; bar_B])
          = Some (exact_keys (admission_of [foo_A; bar_B]))) as HP
    by reflexivity.
  split; [exact HA|]. split; [exact HP|].
  destruct (count_unique_errors_accounting _ _ _ _ _ HA HP)
    as (e & He & Htp & Ha & Hp & Ht & _).
  exists e. split; [exact He|].
  rewrite Htp, Ha, Hp, Ht. repeat split; vm_compute; reflexivity.
Defined.

Lemma pi_key_is_Some (adm : Admission) :
  ¬ has_absent_text adm →
  is_Some (key_set (λ (note : Note) (anno : Annotation),
                      ct ← covered_text (span anno);
                      Some (normalize ct, billing_code anno)) adm).
Proof.
  intros Hno. apply key_set_is_Some. intros note anno Hin.
  apply Admission_iter_elem in Hin as [Hn Ha].
  destruct (covered_text (span anno)) eqn:Hct; [by eexists|].
  exfalso. apply Hno. by exists note, anno.
Qed.

Lemma exact_match_error_self (adm : Admission) :
  exact_match_error adm adm
  = Some (mkErrorRate (Z.of_nat (size (exact_keys adm))) 0 0).
Proof.
  unfold exact_match_error. apply count_unique_errors_self, exact_key_set.
Qed.

Lemma position_independent_error_self (adm : Admission) :
  ¬ has_absent_text adm →
  ∃ n, position_independent_error adm adm = Some (mkErrorRate n 0 0).
Proof.
  intros Hno. destruct (pi_key_is_Some adm Hno) as [A HA].
  eexists. unfold position_independent_error.
  by apply count_unique_errors_self.
Qed.

(** X2. Comparing an admission in which every annotation has its covered
    text with itself gives no false positive and no false negative: for the
    two span-level errors, and for the two token-level errors when the
    covered texts are ASCII and hold no token of more than 4300 digits, on
    which the tokenizer raises. *)
Theorem errors_of_self_comparison (adm : Admission) :
  ¬ has_absent_text adm →
  (∃ n1 n2,
     exact_match_error adm adm = Some (mkErrorRate n1 0 0)
     ∧ position_independent_error adm adm = Some (mkErrorRate n2 0 0))
  ∧ (ascii_texts adm → ¬ has_long_number_text adm →
     ∃ n3 n4,
       token_exact_match_error adm adm tokenize = Some (mkErrorRate n3 0 0)
       ∧ token_position_independent_error adm adm tokenize
         = Some (mkErrorRate n4 0 0)).
Proof.
  intros Hno.
  destruct (position_independent_error_self adm Hno) as [n2 H2].
  split.
  { exists (Z.of_nat (size (exact_keys adm))), n2.
    by rewrite exact_match_error_self, H2. }
  intros _ Hshort.
  destruct (tokenize_admission adm tokenize) as [adm'|] eqn:Htok;
    [|apply tokenize_admission_None in Htok; unfold untokenizable in Htok; tauto].
  destruct (position_independent_error_self adm'
              (tokenize_admission_covered _ _ Htok)) as [n4 H4].
  exists (Z.of_nat (size (exact_keys adm'))), n4.
  unfold token_exact_match_error, token_position_independent_error.
  rewrite Htok. cbn [mbind option_bind].
  by rewrite !exact_match_error_self, H4.
Qed.

Lemma errors_of_self_comparison_witness :
  ¬ has_absent_text (admission_of [foo_A; bar_B])
  ∧ ascii_texts (admission_of [foo_A; bar_B])
  ∧ ¬ has_long_number_text (admission_of [foo_A; bar_B])
  ∧ (∃ n1 n2,
       exact_match_error (admission_of [foo_A; bar_B]) (admission_of [foo_A; bar_B])
       = Some (mkErrorRate n1 0 0)
       ∧ position_independent_error (admission_of [foo_A; bar_B])
           (admission_of [foo_A; bar_B])
         = Some (mkErrorRate n2 0 0))
  ∧ (∃ n3 n4,
       token_exact_match_error (admission_of [foo_A; bar_B])
         (admission_of [foo_A; bar_B]) tokenize
       = Some (mkErrorRate n3 0 0)
       ∧ token_position_independent_error (admission_of [foo_A; bar_B])
           (admission_of [foo_A; bar_B]) tokenize
         = Some (mkErrorRate n4 0 0)).
Proof.
  assert (¬ has_absent_text (admission_of [foo_A; bar_B])) as H
    by (apply absent_text_free; repeat econstructor).
  assert (ascii_texts (admission_of [foo_A; bar_B])) as Hascii
    by (apply ascii_texts_Forall; repeat constructor).
  assert (¬ has_long_number_text (admission_of [foo_A; bar_B])) as Hshort
    by (apply long_number_free; repeat constructor).
  split; [exact H|]. split; [exact Hascii|]. split; [exact Hshort|].
  destruct (errors_of_self_comparison _ H) as [Hspan Htoken].
  split; [exact Hspan|exact (Htoken Hascii Hshort)].
Defined.

(** X3. Exchanging the gold and the predicted admission exchanges false
    positives and false negatives and keeps the true positives, for the four
    errors and every tokenizer; one direction raises exactly when the other
    does. *)
Theorem errors_swap_false_positives_and_negatives (actual predicted : Admission) :
  exact_match_error predicted actual
  = ErrorRate_swap <$> exact_match_error actual predicted
  ∧ position_independent_error predicted actual
    = ErrorRate_swap <$> position_independent_error actual predicted
  ∧ (∀ tokenize_fn,
       token_exact_match_error predicted actual tokenize_fn
       = ErrorRate_swap <$> token_exact_match_error actual predicted tokenize_fn)
  ∧ (∀ tokenize_fn,
       token_position_independent_error predicted actual tokenize_fn
       = ErrorRate_swap
         <$> token_position_independent_error actual predicted tokenize_fn).
Proof.
  split; [apply count_unique_errors_swap|].
  split; [apply count_unique_errors_swap|].
  split; intros tokenize_fn;
    unfold token_exact_match_error, token_position_independent_error;
    destruct (tokenize_admission actual tokenize_fn) as [a'|],
             (tokenize_admission predicted tokenize_fn) as [p'|];
    cbn [mbind option_bind fmap option_fmap option_map]; try done;
    apply count_unique_errors_swap.
Qed.

(** The keys of an admission depend on its (note id, annotation) pairs only
    as a set, for a key that reads no more of the note than its id. *)
Lemma key_set_ext_id `{Countable K} (g : Z * Annotation → option K)
    (adm adm' : Admission) :
  (∀ k, k ∈ id_annotations adm ↔ k ∈ id_annotations adm') →
  key_set (λ note anno, g (note_id note, anno)) adm
  = key_set (λ note anno, g (note_id note, anno)) adm'.
Proof.
  intros Hsame.
  assert (∀ a a' : Admission,
            (∀ k, k ∈ id_annotations a → k ∈ id_annotations a') →
            ∀ note anno, (note, anno) ∈ Admission_iter a →
              ∃ note', (note', anno) ∈ Admission_iter a'
                       ∧ note_id note' = note_id note) as Hpair.
  { intros a a' Hsub note anno Hin.
    assert ((note_id note, anno) ∈ id_annotations a') as Hk.
    { apply Hsub. apply list_elem_of_fmap. by exists (note, anno). }
    apply list_elem_of_fmap in Hk as ([note' anno'] & [= Hid <-] & Hin').
    by exists note'. }
  assert (∀ a a' : Admission,
            (∀ k, k ∈ id_annotations a → k ∈ id_annotations a') →
            is_Some (key_set (λ note anno, g (note_id note, anno)) a') →
            is_Some (key_set (λ note anno, g (note_id note, anno)) a)) as Hsome.
  { intros a a' Hsub Hs. apply key_set_is_Some. intros note anno Hin.
    destruct (Hpair a a' Hsub note anno Hin) as (note' & Hin' & <-).
    by apply (proj1 (key_set_is_Some _ _) Hs). }
  destruct (key_set _ adm) as [A|] eqn:HA, (key_set _ adm') as [A'|] eqn:HA'.
  - f_equal. apply set_eq. intros x.
    rewrite (key_set_Some_elem _ _ _ HA), (key_set_Some_elem _ _ _ HA').
    split; intros (note & anno & Hin & Hx).
    + destruct (Hpair adm adm' (λ k, proj1 (Hsame k)) note anno Hin)
        as (note' & Hin' & Hid).
      exists note', anno. by rewrite Hid.
    + destruct (Hpair adm' adm (λ k, proj2 (Hsame k)) note anno Hin)
        as (note' & Hin' & Hid).
      exists note', anno. by rewrite Hid.
  - destruct (Hsome adm' adm (λ k, proj2 (Hsame k))) as [? Hs];
      [by eexists|congruence].
  - destruct (Hsome adm adm' (λ k, proj1 (Hsame k))) as [? Hs];
      [by eexists|congruence].
  - done.
Qed.

(** X4. The two span-level errors depend on an admission only through the
    set of its (note id, annotation) pairs: the order of the annotations,
    their repetition, and how they are spread over notes of one id change
    nothing, on either side of the comparison. *)
Theorem errors_depend_on_pairs_as_a_set (actual actual' predicted : Admission) :
  (∀ k, k ∈ id_annotations actual ↔ k ∈ id_annotations actual') →
  exact_match_error actual predicted = exact_match_error actual' predicted
  ∧ exact_match_error predicted actual = exact_match_error predicted actual'
  ∧ position_independent_error actual predicted
    = position_independent_error actual' predicted
  ∧ position_independent_error predicted actual
    = position_independent_error predicted actual'.
Proof.
  intros Hsame.
  pose proof (key_set_ext_id (λ k, Some k) actual actual' Hsame) as Hexact.
  pose proof (key_set_ext_id
                (λ k : Z * Annotation,
                   ct ← covered_text (span k.2);
                   Some (normalize ct, billing_code k.2))
                actual actual' Hsame) as Hpi.
  cbn [fst snd] in Hexact, Hpi.
  unfold exact_match_error, position_independent_error, _count_unique_errors.
  by rewrite Hexact, Hpi.
Qed.

Lemma errors_depend_on_pairs_as_a_set_witness :
  (∀ k, k ∈ id_annotations (admission_of [foo_A; bar_B; foo_A])
        ↔ k ∈ id_annotations (admission_of [bar_B; foo_A]))
  ∧ exact_match_error (admission_of [foo_A; bar_B; foo_A]) (admission_of [foo_A])
    = exact_match_error (admission_of [bar_B; foo_A]) (admission_of [foo_A])
  ∧ position_independent_error (admission_of [foo_A; bar_B; foo_A])
      (admission_of [foo_A])
    = position_independent_error (admission_of [bar_B; foo_A])
        (admission_of [foo_A]).
Proof.
  assert (∀ k, k ∈ id_annotations (admission_of [foo_A; bar_B; foo_A])
               ↔ k ∈ id_annotations (admission_of [bar_B; foo_A])) as H.
  { intros k. cbn. set_unfold. tauto. }
  split; [exact H|].
  destruct (errors_depend_on_pairs_as_a_set _ _ (admission_of [foo_A]) H)
    as (He & _ & Hp & _).
  split; [exact He|exact Hp].
Defined.

Lemma exact_keys_elem (adm : Admission) (k : Z * Annotation) :
  k ∈ exact_keys adm
  ↔ ∃ note, (note, k.2) ∈ Admission_iter adm ∧ note_id note = k.1.
Proof.
  unfold exact_keys. rewrite elem_of_list_to_set, list_elem_of_fmap. split.
  - intros ([note anno] & -> & Hin). by exists note.
  - intros (note & Hin & Hid). exists (note, k.2). split; [|done].
    destruct k. unfold exact_key. simpl in *. by rewrite Hid.
Qed.

Lemma count_unique_errors_inv `{Countable K} (actual predicted : Admission)
    (key : Note → Annotation → option K) (e : ErrorRate) :
  _count_unique_errors actual predicted key = Some e →
  ∃ A P, key_set key actual = Some A ∧ key_set key predicted = Some P
         ∧ e = mkErrorRate (Z.of_nat (size (A ∩ P))) (Z.of_nat (size (P ∖ A)))
                           (Z.of_nat (size (A ∖ P))).
Proof.
  unfold _count_unique_errors. intros He.
  apply bind_Some in He as (A & HA & He).
  apply bind_Some in He as (P & HP & [= <-]). by exists A, P.
Qed.

(** Every annotation of [adm] is an annotation of [adm'], in a note with the
    same id. *)
Lemma exact_difference_empty (adm adm' : Admission) :
  size (exact_keys adm ∖ exact_keys adm') = 0%nat →
  ∀ note anno, (note, anno) ∈ Admission_iter adm →
    ∃ note', (note', anno) ∈ Admission_iter adm' ∧ note_id note' = note_id note.
Proof.
  intros Hsize note anno Hin. apply size_empty_inv in Hsize.
  assert ((note_id note, anno) ∈ exact_keys adm) as Hk.
  { apply exact_keys_elem. by exists note. }
  destruct (decide ((note_id note, anno) ∈ exact_keys adm')) as [Hk'|Hk'].
  - by apply exact_keys_elem in Hk'.
  - exfalso. apply (not_elem_of_empty (C:=gset (Z * Annotation)) (note_id note, anno)).
    rewrite <- Hsize. set_unfold. tauto.
Qed.

Lemma key_difference_empty `{Countable K} (key : Annotation → option K)
    (adm adm' : Admission) (A A' : gset K) :
  (∀ note anno, (note, anno) ∈ Admission_iter adm →
     ∃ note', (note', anno) ∈ Admission_iter adm') →
  key_set (λ _ anno, key anno) adm = Some A →
  key_set (λ _ anno, key anno) adm' = Some A' →
  size (A ∖ A') = 0%nat.
Proof.
  intros Hsub HA HA'. apply size_empty_iff. apply set_equiv. intros x.
  rewrite elem_of_difference, (key_set_Some_elem _ _ _ HA),
    (key_set_Some_elem _ _ _ HA').
  split; [|by intros ?%not_elem_of_empty].
  intros [(note & anno & Hin & Hx) Hnot]. exfalso. apply Hnot.
  destruct (Hsub note anno Hin) as (note' & Hin'). by exists note', anno.
Qed.

(** X5. When both span-level errors return, an exact match without false
    negatives is a position-independent match without false negatives, and
    likewise for false positives. *)
Theorem exact_match_bounds_position_independent
    (actual predicted : Admission) (e e' : ErrorRate) :
  exact_match_error actual predicted = Some e →
  position_independent_error actual predicted = Some e' →
  (false_negatives e = 0 → false_negatives e' = 0)
  ∧ (false_positives e = 0 → false_positives e' = 0).
Proof.
  unfold exact_match_error, position_independent_error. intros He He'.
  apply count_unique_errors_inv in He as (EA & EP & HEA & HEP & ->).
  apply count_unique_errors_inv in He' as (A & P & HA & HP & ->).
  rewrite exact_key_set in HEA, HEP. injection HEA as <-. injection HEP as <-.
  cbn [false_negatives false_positives]. split; intros Hzero.
  - rewrite (key_difference_empty
               (λ anno, ct ← covered_text (span anno);
                        Some (normalize ct, billing_code anno))
               actual predicted A P); [done| |done..].
    intros note anno Hin.
    destruct (exact_difference_empty actual predicted ltac:(lia) note anno Hin)
      as (note' & Hin' & _).
    by exists note'.
  - rewrite (key_difference_empty
               (λ anno, ct ← covered_text (span anno);
                        Some (normalize ct, billing_code anno))
               predicted actual P A); [done| |done..].
    intros note anno Hin.
    destruct (exact_difference_empty predicted actual ltac:(lia) note anno Hin)
      as (note' & Hin' & _).
    by exists note'.
Qed.

Lemma exact_match_bounds_position_independent_witness :
  exact_match_error (admission_of [foo_A]) (admission_of [foo_A; bar_B])
  = Some (mkErrorRate 1 1 0)
  ∧ position_independent_error (admission_of [foo_A]) (admission_of [foo_A; bar_B])
    = Some (mkErrorRate 1 1 0)
  ∧ (false_negatives (mkErrorRate 1 1 0) = 0
     → false_negatives (mkErrorRate 1 1 0) = 0)
  ∧ (false_positives (mkErrorRate 1 1 0) = 0
     → false_positives (mkErrorRate 1 1 0) = 0).
Proof.
  assert (exact_match_error (admission_of [foo_A]) (admission_of [foo_A; bar_B])
          = Some (mkErrorRate 1 1 0)) as He by reflexivity.
  assert (position_independent_error (admission_of [foo_A])
            (admission_of [foo_A; bar_B])
          = Some (mkErrorRate 1 1 0)) as Hp by reflexivity.
  split; [exact He|]. split; [exact Hp|].
  exact (exact_match_bounds_position_independent _ _ _ _ He Hp).
Defined.

Lemma observe_None (self : AllErrorRates) (actual predicted : Admission) :
  observe tokenize self actual predicted = None
  ↔ untokenizable actual ∨ untokenizable predicted.
Proof.
  unfold observe.
  destruct (exact_match_error_returns actual predicted) as [e1 ->].
  cbn [mbind option_bind].
  destruct (position_independent_error actual predicted) as [e2|] eqn:H2;
    cbn [mbind option_bind].
  - destruct (token_exact_match_error actual predicted tokenize) as [e3|] eqn:H3;
      cbn [mbind option_bind];
      [|by apply token_exact_match_error_None in H3].
    destruct (token_position_independent_error actual predicted tokenize)
      as [e4|] eqn:H4; cbn [mbind option_bind];
      [|by apply token_position_independent_error_None in H4].
    split; [done|]. intros Hun.
    apply token_exact_match_error_None in Hun. congruence.
  - apply position_independent_error_None in H2.
    unfold untokenizable. tauto.
Qed.

Lemma observe_all_None (pairs : list (Admission * Admission)) : ∀ self,
  observe_all tokenize self pairs = None
  ↔ Exists (λ ap, untokenizable ap.1 ∨ untokenizable ap.2) pairs.
Proof.
  induction pairs as [|[a p] pairs IH]; intros self; cbn [observe_all].
  - split; [done|]. by intros ?%Exists_nil.
  - rewrite Exists_cons. cbn [fst snd]. rewrite <- (observe_None self a p).
    destruct (observe tokenize self a p) as [self'|]; cbn [mbind option_bind].
    + rewrite IH. split; [by right|]. by intros [?|?].
    + split; [by left|done].
Qed.

(** X6. On admissions with ASCII covered texts, [AllErrorRates.observe]
    with the repository's tokenizer raises exactly when an annotation of one
    of the two admissions has no covered text, or has a covered text with a
    token of more than 4300 digits; a sequence of observations raises exactly
    when one of its pairs does. *)
Theorem observe_raises_iff_untokenizable :
  (∀ self actual predicted,
     ascii_texts actual → ascii_texts predicted →
     (observe tokenize self actual predicted = None
      ↔ untokenizable actual ∨ untokenizable predicted))
  ∧ (∀ self pairs,
       Forall (λ ap, ascii_texts ap.1 ∧ ascii_texts ap.2) pairs →
       (observe_all tokenize self pairs = None
        ↔ Exists (λ ap, untokenizable ap.1 ∨ untokenizable ap.2) pairs)).
Proof.
  split.
  - intros self actual predicted _ _. apply observe_None.
  - intros self pairs _. apply observe_all_None.
Qed.

Lemma observe_raises_iff_untokenizable_witness :
  ascii_texts (admission_of [foo_A; bar_B])
  ∧ ascii_texts many_ones_admission
  ∧ (observe tokenize AllErrorRates_init (admission_of [foo_A; bar_B])
       many_ones_admission = None
     ↔ untokenizable (admission_of [foo_A; bar_B])
       ∨ untokenizable many_ones_admission).
Proof.
  assert (ascii_texts (admission_of [foo_A; bar_B])) as Ha
    by (apply ascii_texts_Forall; repeat constructor).
  assert (ascii_texts many_ones_admission) as Hp
    by (apply ascii_texts_Forall; repeat constructor).
  split; [exact Ha|]. split; [exact Hp|].
  exact (proj1 observe_raises_iff_untokenizable AllErrorRates_init _ _ Ha Hp).
Defined.

(** *** What merging keeps *)

Lemma merge_adjacent_in_note_keeps_fields (note note' : Note) :
  merge_adjacent_in_note note = Some note' →
  note_id note' = note_id note ∧ category note' = category note
  ∧ text note' = text note.
Proof.
  unfold merge_adjacent_in_note. case_bool_decide; [by intros [= <-]|].
  destruct (_merge_adjacent (annotations note) (text note)) as [new|];
    cbn [mbind option_bind]; [|done].
  by case_bool_decide; intros [= <-].
Qed.

Lemma trim_annotations_in_note_keeps_fields (note note' : Note) :
  trim_annotations_in_note note = Some note' →
  note_id note' = note_id note ∧ category note' = category note
  ∧ text note' = text note.
Proof.
  unfold trim_annotations_in_note. intros Htrim.
  by apply bind_Some in Htrim as (annos' & _ & [= <-]).
Qed.

Lemma made_of_self annos a : a ∈ annos → made_of annos a.
Proof. intros Ha. by exists a, a. Qed.

Lemma merge_test_true_codes note_text previous current :
  merge_test note_text previous current = Some true →
  billing_code previous = billing_code current.
Proof. unfold merge_test. by case_bool_decide. Qed.

Lemma merge_annotator left right note_text m :
  _merge left right note_text = Some m → annotator m = annotator left.
Proof.
  unfold _merge. intros Hm. by apply bind_Some in Hm as (ct & _ & [= <-]).
Qed.

Lemma merge_loop_made_of annos note_text : ∀ rest pre previous out,
  Forall (made_of annos) (pre ++ [previous]) →
  Forall (λ a, a ∈ annos) rest →
  merge_loop note_text (pre ++ [previous]) rest = Some out →
  Forall (made_of annos) out ∧ (length out ≤ length pre + 1 + length rest)%nat.
Proof.
  induction rest as [|current rest IH]; intros pre previous out Hpre Hrest Hloop.
  - injection Hloop as <-. split; [done|]. rewrite length_app. simpl. lia.
  - cbn [merge_loop] in Hloop. rewrite merge_step_snoc in Hloop.
    apply Forall_cons_1 in Hrest as [Hcur Hrest].
    destruct (merge_test note_text previous current) as [[]|] eqn:Htest;
      cbn [mbind option_bind] in Hloop; [| |done].
    + destruct (_merge previous current note_text) as [m|] eqn:Hm;
        cbn [mbind option_bind] in Hloop; [|done].
      assert (Forall (made_of annos) (pre ++ [m])) as Hpre'.
      { apply Forall_app in Hpre as [Hpre Hprev]. apply Forall_app. split; [done|].
        apply Forall_singleton. rewrite Forall_singleton in Hprev.
        destruct Hprev as (l & r & Hl & Hr & Hb & He & Hc & Ha & Hrc).
        apply merge_test_true_codes in Htest.
        pose proof (merge_annotator _ _ _ _ Hm) as Hma.
        apply merge_Some_inv in Hm as (Hmb & Hme & Hmc).
        exists l, current. repeat split; try done; congruence. }
      destruct (IH pre m out Hpre' Hrest Hloop) as [Hout Hlen].
      split; [done|]. simpl. lia.
    + assert (Forall (made_of annos) ((pre ++ [previous]) ++ [current])) as Hpre'.
      { apply Forall_app. split; [done|]. by apply Forall_singleton, made_of_self. }
      destruct (IH (pre ++ [previous]) current out Hpre' Hrest Hloop)
        as [Hout Hlen].
      split; [done|]. rewrite length_app in Hlen. simpl in *. lia.
Qed.

Lemma merge_adjacent_made_of annos note_text merged :
  _merge_adjacent annos note_text = Some merged →
  Forall (made_of annos) merged ∧ (length merged ≤ length annos)%nat.
Proof.
  unfold _merge_adjacent. case_bool_decide.
  { intros [= <-]. split; [|done]. apply Forall_forall. apply made_of_self. }
  pose proof (sorted_by_begin_Permutation annos) as Hperm.
  pose proof (sorted_by_begin_length annos) as Hlen.
  destruct (sorted_by_begin annos) as [|first rest]; [done|].
  intros Hloop.
  assert (Forall (λ a, a ∈ annos) (first :: rest)) as Hin.
  { apply Forall_forall. intros a Ha. by rewrite Hperm. }
  apply Forall_cons_1 in Hin as [Hfirst Hrest].
  assert (Forall (made_of annos) ([] ++ [first])) as Hpre.
  { by apply Forall_singleton, made_of_self. }
  destruct (merge_loop_made_of annos note_text rest [] first merged Hpre Hrest Hloop)
    as [Hout Hle].
  split; [done|]. simpl in *. lia.
Qed.

(** X7. [merge_adjacent_in_note] keeps the id, the category and the text of
    the note and never adds an annotation; every annotation it returns begins
    where an annotation of the note begins, has the billing code and
    annotator of that one, and ends where an annotation of the note with the
    same code ends. *)
Theorem merge_adjacent_in_note_keeps (note note' : Note) :
  merge_adjacent_in_note note = Some note' →
  note_id note' = note_id note ∧ category note' = category note
  ∧ text note' = text note
  ∧ (length (annotations note') ≤ length (annotations note))%nat
  ∧ Forall (made_of (annotations note)) (annotations note').
Proof.
  unfold merge_adjacent_in_note. case_bool_decide.
  { intros [= <-]. repeat split; try done.
    apply Forall_forall, made_of_self. }
  destruct (_merge_adjacent (annotations note) (text note)) as [new|] eqn:Hm;
    cbn [mbind option_bind]; [|done].
  apply merge_adjacent_made_of in Hm as [Hmade Hlen].
  case_bool_decide; intros [= <-]; repeat split; try done.
  apply Forall_forall, made_of_self.
Qed.

Lemma merge_adjacent_in_note_keeps_witness :
  merge_adjacent_in_note (note_of [bar_A; foo_A]) = Some (note_of [foo_bar_A])
  ∧ note_id (note_of [foo_bar_A]) = note_id (note_of [bar_A; foo_A])
  ∧ text (note_of [foo_bar_A]) = text (note_of [bar_A; foo_A])
  ∧ Forall (made_of [bar_A; foo_A]) [foo_bar_A].
Proof.
  assert (merge_adjacent_in_note (note_of [bar_A; foo_A])
          = Some (note_of [foo_bar_A])) as H by reflexivity.
  split; [exact H|].
  destruct (merge_adjacent_in_note_keeps _ _ H) as (Hid & _ & Htext & _ & Hmade).
  split; [exact Hid|]. split; [exact Htext|exact Hmade].
Defined.

(** *** Touching and overlapping spans *)

Lemma substring_zero (n : nat) (s : string) : substring n 0 s = "".
Proof. revert n. induction s as [|c s IH]; intros [|n]; simpl; auto. Qed.

(** A slice that ends where it begins, or before, is empty. *)
Lemma slice_empty (s : string) (lo hi : Z) :
  0 ≤ hi ≤ lo → Py.slice s lo hi = "".
Proof.
  intros [Hhi Hlo]. unfold Py.slice, Py.slice_bound.
  rewrite !bool_decide_eq_false_2 by lia.
  replace (Z.to_nat (Z.min hi (Py.len s) - Z.min lo (Py.len s))) with O by lia.
  apply substring_zero.
Qed.

(** X8. Two annotations with the same billing code, the second of which
    begins inside the first or at its end, are merged into one that begins
    where the first begins and ends where the second ends; when the second
    ends before the first does, the merged span is thus shorter than the
    first. *)
Theorem merge_adjacent_overlapping (s : string) (a b : Annotation) :
  billing_code a = billing_code b →
  begin (span a) ≤ begin (span b) →
  0 ≤ begin (span b) ≤ end_ (span a) →
  ∃ m, _merge_adjacent [a; b] (Some s) = Some [m]
       ∧ begin (span m) = begin (span a)
       ∧ end_ (span m) = end_ (span b)
       ∧ billing_code m = billing_code a.
Proof.
  intros Hcode Hab Hoverlap. unfold _merge_adjacent.
  rewrite bool_decide_eq_false_2 by (simpl; lia).
  cbn [sorted_by_begin foldr insert_by_begin].
  rewrite bool_decide_eq_true_2 by done.
  cbn [merge_loop]. change [a] with ([] ++ [a]).
  rewrite (merge_step_snoc (Some s) [] a b).
  unfold merge_test. rewrite bool_decide_eq_true_2 by done.
  cbn [Py.text_slice fmap option_fmap option_map].
  rewrite slice_empty by done.
  change (_is_non_breaking "") with true. cbn [mbind option_bind].
  destruct (merge_text_present a b s) as [m Hm]. rewrite Hm.
  cbn [mbind option_bind app].
  exists m. split; [done|]. by apply merge_Some_inv in Hm.
Qed.

Lemma merge_adjacent_overlapping_witness :
  billing_code foo_bar_A
  = billing_code (mkAnnotation (mkSpan 2 5 (Some "o, ")) code_A "human")
  ∧ begin (span foo_bar_A)
    ≤ begin (span (mkAnnotation (mkSpan 2 5 (Some "o, ")) code_A "human"))
  ∧ ∃ m, _merge_adjacent
           [foo_bar_A; mkAnnotation (mkSpan 2 5 (Some "o, ")) code_A "human"]
           (Some "foo, bar") = Some [m]
         ∧ begin (span m) = 0 ∧ end_ (span m) = 5.
Proof.
  split; [reflexivity|]. split; [cbn; lia|].
  destruct (merge_adjacent_overlapping "foo, bar" foo_bar_A
              (mkAnnotation (mkSpan 2 5 (Some "o, ")) code_A "human"))
    as (m & Hm & Hb & He & _); [reflexivity|cbn; lia|cbn; lia|].
  exists m. split; [exact Hm|]. split; [exact Hb|exact He].
Defined.

(** *** Merging on a note without text *)

Lemma merge_test_no_text previous current :
  merge_test None previous current
  = if bool_decide (billing_code previous = billing_code current)
    then None else Some false.
Proof. unfold merge_test. by case_bool_decide. Qed.

Lemma merge_loop_no_text : ∀ rest pre previous,
  (neighbours_share_code (previous :: rest)
   ∧ merge_loop None (pre ++ [previous]) rest = None)
  ∨ (¬ neighbours_share_code (previous :: rest)
     ∧ merge_loop None (pre ++ [previous]) rest = Some (pre ++ previous :: rest)).
Proof.
  induction rest as [|current rest IH]; intros pre previous.
  - right. split; [by intros []|done].
  - cbn [merge_loop]. rewrite merge_step_snoc, merge_test_no_text.
    case_bool_decide as Hcode; cbn [mbind option_bind].
    + left. split; [by left|done].
    + destruct (IH (pre ++ [previous]) current) as [[Hn ->]|[Hn ->]].
      * left. split; [by right|done].
      * right. split; [by intros [?|?]|]. by rewrite <- app_assoc.
Qed.

(** X9. On a note without text and with two annotations or more,
    [merge_adjacent_in_note] raises (it subscripts [None]) if two neighbours
    in the order of [begin] have the same billing code, and returns the note
    unchanged otherwise. *)
Theorem merge_adjacent_without_text (note : Note) :
  text note = None →
  (2 ≤ length (annotations note))%nat →
  (neighbours_share_code (sorted_by_begin (annotations note))
   ∧ merge_adjacent_in_note note = None)
  ∨ (¬ neighbours_share_code (sorted_by_begin (annotations note))
     ∧ merge_adjacent_in_note note = Some note).
Proof.
  intros Htext Hlen. unfold merge_adjacent_in_note, _merge_adjacent.
  rewrite !bool_decide_eq_false_2 by lia. rewrite Htext.
  pose proof (sorted_by_begin_length (annotations note)) as Hl.
  destruct (sorted_by_begin (annotations note)) as [|first rest]; [simpl in Hl; lia|].
  pose proof (merge_loop_no_text rest [] first) as Hloop. cbn [app] in Hloop.
  destruct Hloop as [[Hn ->]|[Hn ->]].
  - by left.
  - right. split; [done|]. cbn [mbind option_bind app].
    rewrite bool_decide_eq_false_2; [done|]. rewrite Hl. lia.
Qed.

Lemma merge_adjacent_without_text_witness :
  text (mkNote 1 "Discharge summary" None [foo_A; bar_A]) = None
  ∧ (2 ≤ length (annotations (mkNote 1 "Discharge summary" None [foo_A; bar_A])))%nat
  ∧ ((neighbours_share_code
        (sorted_by_begin
           (annotations (mkNote 1 "Discharge summary" None [foo_A; bar_A])))
      ∧ merge_adjacent_in_note (mkNote 1 "Discharge summary" None [foo_A; bar_A])
        = None)
     ∨ (¬ neighbours_share_code
            (sorted_by_begin
               (annotations (mkNote 1 "Discharge summary" None [foo_A; bar_A])))
        ∧ merge_adjacent_in_note (mkNote 1 "Discharge summary" None [foo_A; bar_A])
          = Some (mkNote 1 "Discharge summary" None [foo_A; bar_A]))).
Proof.
  split; [reflexivity|]. split; [cbn; lia|].
  apply (merge_adjacent_without_text
           (mkNote 1 "Discharge summary" None [foo_A; bar_A]));
    [reflexivity|cbn; lia].
Defined.

(** *** What trimming keeps *)

Lemma do_trim_shrinks (text : option string) (sp sp' : Span) :
  _do_trim text sp = Some sp' →
  begin sp ≤ begin sp' ∧ end_ sp' ≤ end_ sp
  ∧ (begin sp ≤ end_ sp → begin sp' ≤ end_ sp').
Proof.
  unfold _do_trim. intros Htrim.
  apply bind_Some in Htrim as (b' & Hl & Htrim).
  apply bind_Some in Htrim as (e' & Hr & Htrim).
  apply bind_Some in Htrim as (ct' & _ & [= <-]). cbn [begin end_].
  apply trim_left_inv in Hl as [Hl _]. apply trim_right_inv in Hr as [Hr _].
  lia.
Qed.

Lemma trim_annotation_shrunk (text : option string) (a a' : Annotation) :
  trim_annotation text a = Some a' → shrunk a a'.
Proof.
  unfold trim_annotation. intros Htrim.
  apply bind_Some in Htrim as (sp' & Hsp & Htrim).
  apply do_trim_shrinks in Hsp as (Hb & He & Hbe).
  case_bool_decide as Hchg.
  - apply bind_Some in Htrim as (? & _ & [= <-]). by repeat split.
  - injection Htrim as <-. subst sp'. by repeat split.
Qed.

(** X10. When [trim_annotations_in_note] returns, the id, category and text
    of the note are kept, and so are the number and order of the annotations
    with their billing codes and annotators; each span lies inside the one it
    replaces, and a span that was not reversed is not reversed. *)
Theorem trim_annotations_in_note_keeps (note note' : Note) :
  trim_annotations_in_note note = Some note' →
  note_id note' = note_id note ∧ category note' = category note
  ∧ text note' = text note
  ∧ Forall2 shrunk (annotations note) (annotations note').
Proof.
  unfold trim_annotations_in_note. intros Htrim.
  apply bind_Some in Htrim as (annos' & Hm & [= <-]). repeat split; try done.
  cbn [annotations replace_annotations]. apply mapM_Some in Hm.
  eapply Forall2_impl; [exact Hm|]. intros a a'. apply trim_annotation_shrunk.
Qed.

Lemma trim_annotations_in_note_keeps_witness :
  trim_annotations_in_note
    (note_of [mkAnnotation (mkSpan 3 8 (Some ", bar")) code_B "human"])
  = Some (note_of [bar_B])
  ∧ Forall2 shrunk [mkAnnotation (mkSpan 3 8 (Some ", bar")) code_B "human"]
      [bar_B].
Proof.
  assert (trim_annotations_in_note
            (note_of [mkAnnotation (mkSpan 3 8 (Some ", bar")) code_B "human"])
          = Some (note_of [bar_B])) as H by reflexivity.
  split; [exact H|].
  destruct (trim_annotations_in_note_keeps _ _ H) as (_ & _ & _ & Hs).
  exact Hs.
Defined.

(** *** Spans that stick out of the text *)

Lemma string_get_ge (s : string) (n : nat) :
  (String.length s ≤ n)%nat → String.get n s = None.
Proof.
  revert n. induction s as [|c s IH]; intros n; simpl; [by destruct n|].
  destruct n as [|n]; [lia|]. intros Hn. apply IH. lia.
Qed.

Lemma getitem_beyond (s : string) (i : Z) :
  Py.len s ≤ i → Py.getitem s i = None.
Proof.
  intros Hi. unfold Py.getitem, Py.len in *.
  rewrite bool_decide_eq_true_2 by lia. apply string_get_ge. lia.
Qed.

(** The left loop reads every character that it passes. *)
Lemma trim_left_reads (text : option string) : ∀ (n : nat) (b b' : Z),
  trim_left n text b = Some b' →
  ∀ i, b ≤ i < b' → is_Some (Py.text_getitem text i).
Proof.
  induction n as [|n IH]; intros b b' Htrim i Hi.
  - injection Htrim as <-. lia.
  - cbn [trim_left] in Htrim.
    destruct (Py.text_getitem text b) as [c|] eqn:Hc;
      cbn [mbind option_bind] in Htrim; [|done].
    destruct (Py.mem c TRIM_L_CHARS).
    + destruct (decide (i = b)) as [->|Hne]; [by rewrite Hc|].
      apply (IH _ _ Htrim). lia.
    + injection Htrim as <-. lia.
Qed.

Lemma do_trim_beyond (s : string) (sp : Span) :
  0 ≤ begin sp < end_ sp → Py.len s < end_ sp → _do_trim (Some s) sp = None.
Proof.
  intros [Hb Hbe] He. unfold _do_trim.
  destruct (trim_left _ (Some s) (begin sp)) as [b'|] eqn:Hl;
    cbn [mbind option_bind]; [|done].
  pose proof (trim_left_reads _ _ _ _ Hl) as Hreads.
  apply trim_left_inv in Hl as [Hrange Hstop].
  assert (b' < end_ sp) as Hlt.
  { destruct (decide (b' < end_ sp)) as [|Hge]; [done|]. exfalso.
    destruct (Hreads (Z.max (begin sp) (Py.len s)) ltac:(lia)) as [c Hc].
    cbn [Py.text_getitem mbind option_bind] in Hc.
    rewrite getitem_beyond in Hc by lia. done. }
  destruct (Z.to_nat (end_ sp - b')) as [|n] eqn:Hn; [lia|].
  cbn [trim_right Py.text_getitem mbind option_bind].
  by rewrite getitem_beyond by lia.
Qed.

Lemma do_trim_no_text (sp : Span) :
  begin sp < end_ sp → _do_trim None sp = None.
Proof.
  intros Hbe. unfold _do_trim.
  destruct (Z.to_nat (end_ sp - begin sp)) as [|n] eqn:Hn; [lia|]. done.
Qed.

(** X11. [trim_annotations_in_note] raises on a note with a non-empty span
    when the note has no text, and when the span begins at 0 or later and
    ends beyond the end of the text. *)
Theorem trim_raises_outside_text (note : Note) (a : Annotation) :
  a ∈ annotations note →
  begin (span a) < end_ (span a) →
  text note = None
  ∨ (∃ s, text note = Some s ∧ 0 ≤ begin (span a) ∧ Py.len s < end_ (span a)) →
  trim_annotations_in_note note = None.
Proof.
  intros Ha Hbe Htext. unfold trim_annotations_in_note.
  assert (trim_annotation (text note) a = None) as Hnone.
  { unfold trim_annotation.
    destruct Htext as [->|(s & -> & Hb & He)].
    - by rewrite do_trim_no_text.
    - by rewrite do_trim_beyond by lia. }
  assert (mapM (trim_annotation (text note)) (annotations note) = None) as ->;
    [|done].
  apply mapM_None, Exists_exists. by exists a.
Qed.

Lemma trim_raises_outside_text_witness :
  mkAnnotation (mkSpan 5 9 (Some "bar.")) code_A "human"
  ∈ annotations (note_of [mkAnnotation (mkSpan 5 9 (Some "bar.")) code_A "human"])
  ∧ Py.len "foo, bar" < 9
  ∧ trim_annotations_in_note
      (note_of [mkAnnotation (mkSpan 5 9 (Some "bar.")) code_A "human"])
    = None.
Proof.
  split; [apply list_elem_of_here|]. split; [vm_compute; reflexivity|].
  apply (trim_raises_outside_text
           (note_of [mkAnnotation (mkSpan 5 9 (Some "bar.")) code_A "human"])
           (mkAnnotation (mkSpan 5 9 (Some "bar.")) code_A "human"));
    [apply list_elem_of_here|cbn; lia|].
  right. exists "foo, bar". split; [reflexivity|]. split; [cbn; lia|].
  vm_compute. reflexivity.
Defined.

(** *** The second pass of trimming *)

Lemma trim_annotation_second (text : option string) (a a1 : Annotation) :
  trim_annotation text a = Some a1 →
  ∃ a2, trim_annotation text a1 = Some a2 ∧ emptied_text_dropped a1 a2.
Proof.
  unfold trim_annotation at 1. intros Htrim.
  apply bind_Some in Htrim as (sp1 & Hsp1 & Htrim).
  destruct (do_trim_twice _ _ _ Hsp1) as (sp2 & Hsp2 & Hb & He & Hct).
  assert (span a1 = sp1
          ∧ (sp2 ≠ sp1 → is_Some (Span_len sp2))) as [Hspan Hlen].
  { case_bool_decide as Hchg.
    - apply bind_Some in Htrim as (n & Hn & [= <-]). split; [done|]. intros _.
      unfold Span_len in *. rewrite Hb, He. by destruct (bool_decide _).
    - injection Htrim as <-. split; [done|]. intros Hne. exfalso. apply Hne.
      rewrite Hchg in Hsp2. congruence. }
  clear Htrim. unfold trim_annotation. rewrite Hspan, Hsp2.
  cbn [mbind option_bind]. case_bool_decide as Hchg2.
  - destruct (Hlen Hchg2) as [n ->]. cbn [mbind option_bind].
    eexists. split; [done|]. unfold emptied_text_dropped.
    cbn [span billing_code annotator replace_span]. by rewrite Hspan.
  - exists a1. split; [done|]. unfold emptied_text_dropped.
    rewrite Hspan. subst sp2. by repeat split.
Qed.

Lemma trim_annotations_in_note_second (note note1 : Note) :
  trim_annotations_in_note note = Some note1 →
  ∃ note2, trim_annotations_in_note note1 = Some note2
           ∧ Forall2 emptied_text_dropped (annotations note1) (annotations note2).
Proof.
  unfold trim_annotations_in_note at 1. intros Htrim.
  apply bind_Some in Htrim as (annos1 & Hm & [= <-]).
  unfold trim_annotations_in_note. cbn [annotations text replace_annotations].
  apply mapM_Some in Hm.
  assert (∃ annos2, mapM (trim_annotation (text note)) annos1 = Some annos2
                    ∧ Forall2 emptied_text_dropped annos1 annos2)
    as (annos2 & -> & Hall).
  { induction Hm as [|a a1 l l1 Ha _ (annos2 & IHm & IHall)].
    - by exists [].
    - destruct (trim_annotation_second _ _ _ Ha) as (a2 & Ha2 & Hd).
      exists (a2 :: annos2). split; [|by constructor].
      apply mapM_Some. constructor; [done|]. by apply mapM_Some. }
  cbn [mbind option_bind]. by eexists.
Qed.

(** X12. Trimming a trimmed note returns, moves no span and changes no code
    or annotator: the second pass differs from the first only in that a
    covered text that is the empty string becomes absent. *)
Theorem trim_second_pass (note note1 : Note) :
  trim_annotations_in_note note = Some note1 →
  ∃ note2,
    trim_annotations_in_note note1 = Some note2
    ∧ note_id note2 = note_id note1 ∧ category note2 = category note1
    ∧ text note2 = text note1
    ∧ Forall2 emptied_text_dropped (annotations note1) (annotations note2).
Proof.
  intros Htrim.
  destruct (trim_annotations_in_note_second _ _ Htrim) as (note2 & Htrim2 & Hall).
  exists note2. split; [done|].
  by destruct (trim_annotations_in_note_keeps_fields _ _ Htrim2) as (? & ? & ?).
Qed.

Lemma trim_second_pass_witness :
  trim_annotations_in_note (note_of [separator_B])
  = Some (note_of [mkAnnotation (mkSpan 5 5 (Some "")) code_B "human"])
  ∧ ∃ note2,
      trim_annotations_in_note
        (note_of [mkAnnotation (mkSpan 5 5 (Some "")) code_B "human"])
      = Some note2
      ∧ Forall2 emptied_text_dropped
          [mkAnnotation (mkSpan 5 5 (Some "")) code_B "human"]
          (annotations note2).
Proof.
  assert (trim_annotations_in_note (note_of [separator_B])
          = Some (note_of [mkAnnotation (mkSpan 5 5 (Some "")) code_B "human"]))
    as H by reflexivity.
  split; [exact H|].
  destruct (trim_second_pass _ _ H) as (note2 & H2 & _ & _ & _ & Hd).
  exists note2. split; [exact H2|exact Hd].
Defined.

(** *** Whole datasets *)

Lemma map_notes_Some (mdace mdace' : MDACEData) (map_fn : Note → option Note) :
  _map_notes mdace map_fn = Some mdace'
  ↔ Forall2 (notes_mapped map_fn) (admissions mdace) (admissions mdace').
Proof.
  unfold _map_notes. rewrite fmap_Some. split.
  - intros (adms & Hm & ->). cbn [admissions]. apply mapM_Some in Hm.
    eapply Forall2_impl; [exact Hm|]. intros adm adm' Hadm.
    apply fmap_Some in Hadm as (ns & Hns & ->). split; [done|].
    by apply mapM_Some.
  - intros Hall. exists (admissions mdace'). split; [|by destruct mdace'].
    apply mapM_Some. eapply Forall2_impl; [exact Hall|].
    intros adm adm' [Hid Hns]. apply fmap_Some. exists (notes adm').
    split; [by apply mapM_Some|]. destruct adm'. unfold replace_notes.
    simpl in *. by rewrite Hid.
Qed.

Lemma map_notes_None (mdace : MDACEData) (map_fn : Note → option Note) :
  _map_notes mdace map_fn = None
  ↔ ∃ adm note, adm ∈ admissions mdace ∧ note ∈ notes adm ∧ map_fn note = None.
Proof.
  unfold _map_notes. rewrite fmap_None, mapM_None, Exists_exists.
  setoid_rewrite fmap_None. setoid_rewrite mapM_None.
  setoid_rewrite Exists_exists. split.
  - intros (adm & Hadm & note & Hnote & Hnone). by exists adm, note.
  - intros (adm & note & Hadm & Hnote & Hnone). exists adm. split; [done|].
    by exists note.
Qed.

(** X13. [merge_adjacent_annotations] returns unchanged a dataset that it
    has returned. *)
Theorem merge_adjacent_annotations_idempotent (mdace mdace' : MDACEData) :
  merge_adjacent_annotations mdace = Some mdace' →
  merge_adjacent_annotations mdace' = Some mdace'.
Proof.
  unfold merge_adjacent_annotations. rewrite !map_notes_Some. intros Hall.
  apply Forall2_same_length_lookup. split; [done|].
  intros i adm1 adm2 H1 H2. assert (adm1 = adm2) as <- by congruence.
  destruct (Forall2_lookup_r _ _ _ _ _ Hall H1) as (adm & _ & [_ Hns]).
  split; [done|].
  apply Forall2_same_length_lookup. split; [done|].
  intros j n1 n2 Hn1 Hn2. assert (n1 = n2) as <- by congruence.
  destruct (Forall2_lookup_r _ _ _ _ _ Hns Hn1) as (n & _ & Hn).
  by eapply merge_adjacent_in_note_idempotent.
Qed.

Lemma merge_adjacent_annotations_idempotent_witness :
  merge_adjacent_annotations (mkMDACEData [admission_of [bar_A; foo_A]])
  = Some (mkMDACEData [admission_of [foo_bar_A]])
  ∧ merge_adjacent_annotations (mkMDACEData [admission_of [foo_bar_A]])
    = Some (mkMDACEData [admission_of [foo_bar_A]]).
Proof.
  assert (merge_adjacent_annotations (mkMDACEData [admission_of [bar_A; foo_A]])
          = Some (mkMDACEData [admission_of [foo_bar_A]])) as H by reflexivity.
  split; [exact H|]. exact (merge_adjacent_annotations_idempotent _ _ H).
Defined.

(** X14. [merge_adjacent_annotations] and [trim_annotations] raise exactly
    when the note-level function raises on a note of an admission of the
    dataset; when they return, admissions and notes are the same in number
    and order, with their admission ids, note ids, categories and texts. *)
Theorem cleanup_keeps_notes_or_raises (mdace : MDACEData) :
  (merge_adjacent_annotations mdace = None
   ↔ ∃ adm note, adm ∈ admissions mdace ∧ note ∈ notes adm
                 ∧ merge_adjacent_in_note note = None)
  ∧ (trim_annotations mdace = None
     ↔ ∃ adm note, adm ∈ admissions mdace ∧ note ∈ notes adm
                   ∧ trim_annotations_in_note note = None)
  ∧ (∀ mdace',
       merge_adjacent_annotations mdace = Some mdace'
       ∨ trim_annotations mdace = Some mdace' →
       Forall2 (λ adm adm',
                  hadm_id adm' = hadm_id adm
                  ∧ Forall2 (λ n n', note_id n' = note_id n
                                     ∧ category n' = category n
                                     ∧ text n' = text n)
                            (notes adm) (notes adm'))
               (admissions mdace) (admissions mdace')).
Proof.
  split; [apply map_notes_None|]. split; [apply map_notes_None|].
  unfold merge_adjacent_annotations, trim_annotations.
  intros mdace' [Hm|Hm]; apply map_notes_Some in Hm;
    (eapply Forall2_impl; [exact Hm|]); intros adm adm' [Hid Hns];
    (split; [done|]); (eapply Forall2_impl; [exact Hns|]); intros n n' Hn.
  - by apply merge_adjacent_in_note_keeps_fields in Hn.
  - by apply trim_annotations_in_note_keeps_fields in Hn.
Qed.

(** *** Strings as lists of characters *)

Lemma chars_of_list (l : list ascii) : Py.chars (string_of_list_ascii l) = l.
Proof. apply list_ascii_of_string_of_list_ascii. Qed.

Lemma of_list_chars (s : string) : string_of_list_ascii (Py.chars s) = s.
Proof. apply string_of_list_ascii_of_string. Qed.

Lemma chars_length (s : string) : length (Py.chars s) = String.length s.
Proof. induction s as [|c s IH]; simpl; [done|]. by rewrite IH. Qed.

Lemma chars_substring (s : string) : ∀ n m,
  Py.chars (substring n m s) = take m (drop n (Py.chars s)).
Proof.
  induction s as [|c s IH]; intros n m.
  - by destruct n, m.
  - destruct n as [|n]; simpl.
    + destruct m as [|m]; simpl; [done|]. f_equal. apply (IH 0%nat m).
    + apply IH.
Qed.

(** The characters of a slice with bounds inside of the string. *)
Lemma chars_slice (s : string) (lo hi : Z) :
  0 ≤ lo ≤ hi → hi ≤ Py.len s →
  Py.chars (Py.slice s lo hi)
  = take (Z.to_nat (hi - lo)) (drop (Z.to_nat lo) (Py.chars s)).
Proof.
  intros Hlo Hhi. unfold Py.slice, Py.slice_bound.
  rewrite !bool_decide_eq_false_2 by lia.
  rewrite !Z.min_l by lia. apply chars_substring.
Qed.

Lemma slice_of_list (l : list ascii) (lo hi : Z) :
  0 ≤ lo ≤ hi → hi ≤ Z.of_nat (length l) →
  Py.slice (string_of_list_ascii l) lo hi
  = string_of_list_ascii (take (Z.to_nat (hi - lo)) (drop (Z.to_nat lo) l)).
Proof.
  intros Hlo Hhi. rewrite <- (of_list_chars (Py.slice _ lo hi)).
  rewrite chars_slice, chars_of_list; [done..|].
  unfold Py.len. by rewrite <- chars_length, chars_of_list.
Qed.

(** *** Lower case *)

Lemma lower_char_idemp (c : ascii) :
  Str.lower_char (Str.lower_char c) = Str.lower_char c.
Proof. by destruct c as [[] [] [] [] [] [] [] []]. Qed.

Lemma lower_length (s : string) : Py.len (Str.lower s) = Py.len s.
Proof.
  unfold Py.len, Str.lower. f_equal.
  by rewrite <- !chars_length, chars_of_list, length_fmap.
Qed.

Lemma lower_idemp (s : string) : Str.lower (Str.lower s) = Str.lower s.
Proof.
  unfold Str.lower. rewrite chars_of_list. f_equal.
  rewrite <- list_fmap_compose. apply list_fmap_ext. intros _ c _.
  apply lower_char_idemp.
Qed.

Lemma lower_slice (s : string) (lo hi : Z) :
  Py.slice (Str.lower s) lo hi = Str.lower (Py.slice s lo hi).
Proof.
  unfold Py.slice. rewrite lower_length.
  set (n := Z.to_nat _). set (m := Z.to_nat _).
  rewrite <- (of_list_chars (substring n m (Str.lower s))).
  unfold Str.lower at 2. f_equal.
  rewrite !chars_substring. unfold Str.lower. rewrite chars_of_list.
  by rewrite fmap_take, fmap_drop.
Qed.

(** *** The matches of [\w+] *)

Lemma slice_run (pre w cs : list ascii) :
  Py.slice (string_of_list_ascii (pre ++ w ++ cs))
    (Z.of_nat (length pre + length w) - Z.of_nat (length w))
    (Z.of_nat (length pre + length w))
  = string_of_list_ascii w.
Proof.
  rewrite slice_of_list; [|lia|rewrite !length_app; lia]. f_equal.
  assert (Z.to_nat (Z.of_nat (length pre + length w)
                    - (Z.of_nat (length pre + length w) - Z.of_nat (length w)))
          = length w) as -> by lia.
  assert (Z.to_nat (Z.of_nat (length pre + length w) - Z.of_nat (length w))
          = length pre) as -> by lia.
  by rewrite drop_app_length, take_app_length.
Qed.

Lemma close_run_covers (pre run cs : list ascii) :
  Forall (λ c, Re.is_word c = true) run →
  Forall (covers_word (string_of_list_ascii (pre ++ rev run ++ cs)))
         (Re.close_run (Z.of_nat (length pre + length run)) run).
Proof.
  intros Hrun. destruct run as [|c run]; [constructor|].
  unfold Re.close_run. remember (c :: run) as w eqn:Hw.
  assert (0 < length w)%nat as Hlen by (rewrite Hw; simpl; lia).
  clear Hw. apply Forall_singleton.
  pose proof (slice_run pre (rev w) cs) as Hslice.
  rewrite length_rev in Hslice.
  unfold covers_word. cbn [begin end_ covered_text]. rewrite Hslice.
  split; [lia|]. split; [lia|]. split.
  { unfold Py.len. rewrite <- chars_length, chars_of_list.
    rewrite !length_app, length_rev. lia. }
  split; [done|]. rewrite chars_of_list. by apply Forall_rev.
Qed.

Lemma scan_covers : ∀ (cs pre run : list ascii),
  Forall (λ c, Re.is_word c = true) run →
  Forall (covers_word (string_of_list_ascii (pre ++ rev run ++ cs)))
         (Re.scan (Z.of_nat (length pre + length run)) run cs).
Proof.
  induction cs as [|c cs IH]; intros pre run Hrun; cbn [Re.scan].
  - by apply close_run_covers.
  - destruct (Re.is_word c) eqn:Hc.
    + replace (Z.of_nat (length pre + length run) + 1)
        with (Z.of_nat (length pre + length (c :: run))) by (simpl; lia).
      replace (pre ++ rev run ++ c :: cs) with (pre ++ rev (c :: run) ++ cs)
        by (simpl; by rewrite <- !app_assoc).
      apply IH. by constructor.
    + apply Forall_app. split; [by apply close_run_covers|].
      replace (Z.of_nat (length pre + length run) + 1)
        with (Z.of_nat (length (pre ++ rev run ++ [c]) + length (@nil ascii)))
        by (rewrite !length_app, length_rev; simpl; lia).
      replace (pre ++ rev run ++ c :: cs)
        with ((pre ++ rev run ++ [c]) ++ rev [] ++ cs)
        by (simpl; by rewrite <- !app_assoc).
      by apply IH.
Qed.

Lemma apart_from_weaken (p q : Z) (l : list Span) :
  p ≤ q → apart_from q l → apart_from p l.
Proof.
  destruct l as [|sp l]; [done|]. simpl. intros Hpq (? & ? & ?).
  split; [lia|done].
Qed.

Lemma close_run_scan_apart (pos : Z) (run : list ascii) (rest : list Span) :
  apart_from (pos + 1) rest →
  apart_from (pos - Z.of_nat (length run)) (Re.close_run pos run ++ rest).
Proof.
  intros Hrest. destruct run as [|c run]; cbn [Re.close_run app].
  - eapply apart_from_weaken; [|exact Hrest]. simpl. lia.
  - cbn [apart_from begin end_]. split; [lia|]. split; [simpl; lia|done].
Qed.

Lemma scan_apart : ∀ (cs : list ascii) (pos : Z) (run : list ascii),
  apart_from (pos - Z.of_nat (length run)) (Re.scan pos run cs).
Proof.
  induction cs as [|c cs IH]; intros pos run; cbn [Re.scan].
  - rewrite <- (app_nil_r (Re.close_run pos run)).
    by apply close_run_scan_apart.
  - destruct (Re.is_word c).
    + pose proof (IH (pos + 1) (c :: run)) as Hs.
      eapply apart_from_weaken; [|exact Hs]. simpl. lia.
    + apply close_run_scan_apart.
      pose proof (IH (pos + 1) []) as Hs. simpl in Hs.
      by rewrite Z.sub_0_r in Hs.
Qed.

Lemma apart_from_filter (f : Span → bool) : ∀ (l : list Span) (p : Z),
  apart_from p l → apart_from p (List.filter f l).
Proof.
  induction l as [|sp l IH]; intros p; [done|].
  cbn [apart_from List.filter]. intros (Hp & Hlt & Hrest).
  destruct (f sp).
  - cbn [apart_from]. auto.
  - apply IH. eapply apart_from_weaken; [|exact Hrest]. lia.
Qed.

Lemma Forall_List_filter {A} (P : A → Prop) (f : A → bool) (l : list A) :
  Forall P l → Forall P (List.filter f l).
Proof.
  induction 1 as [|x l Hx _ IH]; simpl; [done|].
  destruct (f x); [by constructor|done].
Qed.

Lemma tokenize_inv (text : string) :
  has_long_number text = false →
  ∃ spans,
    tokenize text = Some spans
    ∧ apart_from 0 spans
    ∧ Forall (λ sp,
                0 ≤ begin sp ∧ begin sp < end_ sp ∧ end_ sp ≤ Py.len text
                ∧ covered_text sp
                  = Some (Str.lower (Py.slice text (begin sp) (end_ sp)))
                ∧ Forall (λ c, Re.is_word c = true)
                         (Py.chars (Str.lower (Py.slice text (begin sp) (end_ sp)))))
             spans.
Proof.
  intros Hno. eexists. split; [by apply tokenize_filter|]. split.
  - apply apart_from_filter. apply (scan_apart _ 0 []).
  - apply Forall_List_filter. unfold Re.finditer_spans.
    pose proof (scan_covers (Py.chars (Str.lower text)) [] []
                  ltac:(constructor)) as Hcov.
    cbn [app rev length] in Hcov. rewrite of_list_chars in Hcov.
    eapply Forall_impl; [exact Hcov|].
    intros sp (Hb & Hlt & He & Hct & Hw). rewrite lower_length in He.
    rewrite lower_slice in Hct, Hw. done.
Qed.

(** *** Tokens of an annotation *)

Lemma slice_length (s : string) (lo hi : Z) :
  0 ≤ lo ≤ hi → hi ≤ Py.len s → Py.len (Py.slice s lo hi) = hi - lo.
Proof.
  intros Hlo Hhi. unfold Py.len at 1.
  rewrite <- chars_length, chars_slice by done.
  rewrite length_take, length_drop, chars_length. unfold Py.len in Hhi. lia.
Qed.

(** A slice of a slice is a slice. *)
Lemma slice_slice (s : string) (lo hi lo' hi' : Z) :
  0 ≤ lo ≤ hi → hi ≤ Py.len s → 0 ≤ lo' ≤ hi' → hi' ≤ hi - lo →
  Py.slice (Py.slice s lo hi) lo' hi' = Py.slice s (lo + lo') (lo + hi').
Proof.
  intros Hlo Hhi Hlo' Hhi'.
  rewrite <- (of_list_chars (Py.slice (Py.slice s lo hi) lo' hi')).
  rewrite <- (of_list_chars (Py.slice s (lo + lo') (lo + hi'))). f_equal.
  rewrite chars_slice; [|done|by rewrite slice_length].
  rewrite !chars_slice by lia.
  replace (Z.to_nat (hi - lo))
    with (Z.to_nat lo' + (Z.to_nat (hi - lo) - Z.to_nat lo'))%nat by lia.
  rewrite <- take_drop_commute, take_take, drop_drop.
  f_equal; [lia|]. f_equal. lia.
Qed.

Lemma tokenize_annotation_inv (a : Annotation) (ct : string)
    (tokenize_fn : string → option (list Span)) (tokens : list Annotation) :
  covered_text (span a) = Some ct →
  tokenize_annotation a tokenize_fn = Some tokens →
  ∃ spans, tokenize_fn ct = Some spans
           ∧ Forall2 (λ sp t,
                        billing_code t = billing_code a
                        ∧ annotator t = annotator a
                        ∧ begin (span t) = begin (span a) + begin sp
                        ∧ end_ (span t) = begin (span a) + end_ sp
                        ∧ covered_text (span t) = covered_text sp)
                     spans tokens.
Proof.
  unfold tokenize_annotation. intros -> Htok. cbn [mbind option_bind] in Htok.
  apply fmap_Some in Htok as (spans & Hspans & ->). exists spans. split; [done|].
  apply Forall2_fmap_r, Forall_Forall2_diag, Forall_forall. by intros sp _.
Qed.

(** X15. For an annotation whose covered text is the ASCII text [s]
    between the bounds of its span, with no token of more than 4300 digits in
    it, [tokenize_annotation] with the repository's tokenizer returns; each
    token has the billing code and annotator of the annotation, a non-empty
    span inside the span of the annotation, in offsets of [s], and for
    covered text the lower-cased text of [s] that it covers. *)
Theorem tokenize_annotation_tokens (s : string) (a : Annotation) :
  isascii s = true →
  0 ≤ begin (span a) ≤ end_ (span a) → end_ (span a) ≤ Py.len s →
  covered_text (span a) = Some (Py.slice s (begin (span a)) (end_ (span a))) →
  has_long_number (Py.slice s (begin (span a)) (end_ (span a))) = false →
  ∃ tokens,
    tokenize_annotation a tokenize = Some tokens
    ∧ Forall (λ t,
                billing_code t = billing_code a ∧ annotator t = annotator a
                ∧ begin (span a) ≤ begin (span t)
                ∧ begin (span t) < end_ (span t)
                ∧ end_ (span t) ≤ end_ (span a)
                ∧ covered_text (span t)
                  = Some (Str.lower (Py.slice s (begin (span t)) (end_ (span t)))))
             tokens.
Proof.
  intros _ Hb He Hct Hshort.
  destruct (tokenize_annotation a tokenize) as [tokens|] eqn:Htok;
    [|apply tokenize_annotation_None in Htok as [?|(ct & ? & ?)]; congruence].
  exists tokens. split; [done|].
  destruct (tokenize_annotation_inv _ _ _ _ Hct Htok) as (spans & Hspans & Hall).
  destruct (tokenize_inv (Py.slice s (begin (span a)) (end_ (span a))) Hshort)
    as (spans' & Hspans' & _ & Hcov).
  assert (spans' = spans) as -> by congruence.
  rewrite slice_length in Hcov by done.
  clear Hspans Hspans' Htok.
  induction Hall as [|sp t spans tokens (Hc & Ha & Htb & Hte & Htc) _ IH];
    [constructor|].
  apply Forall_cons_1 in Hcov as [(Hsb & Hlt & Hse & Hsc & _) Hcov].
  constructor; [|by apply IH].
  repeat split; try done; try lia.
  rewrite Htc, Hsc, Htb, Hte. by rewrite slice_slice by lia.
Qed.

Lemma tokenize_annotation_tokens_witness :
  isascii "foo, bar" = true
  ∧ 0 ≤ begin (span foo_bar_A) ≤ end_ (span foo_bar_A)
  ∧ end_ (span foo_bar_A) ≤ Py.len "foo, bar"
  ∧ covered_text (span foo_bar_A)
    = Some (Py.slice "foo, bar" (begin (span foo_bar_A)) (end_ (span foo_bar_A)))
  ∧ has_long_number
      (Py.slice "foo, bar" (begin (span foo_bar_A)) (end_ (span foo_bar_A)))
    = false
  ∧ ∃ tokens,
      tokenize_annotation foo_bar_A tokenize = Some tokens
      ∧ Forall (λ t, billing_code t = code_A ∧ 0 ≤ begin (span t)
                     ∧ begin (span t) < end_ (span t) ∧ end_ (span t) ≤ 8)
               tokens.
Proof.
  assert (isascii "foo, bar" = true) as H0 by reflexivity.
  assert (0 ≤ begin (span foo_bar_A) ≤ end_ (span foo_bar_A)) as H1
    by (cbn; lia).
  assert (end_ (span foo_bar_A) ≤ Py.len "foo, bar") as H2
    by (vm_compute; discriminate).
  assert (covered_text (span foo_bar_A)
          = Some (Py.slice "foo, bar" (begin (span foo_bar_A))
                    (end_ (span foo_bar_A)))) as H3 by reflexivity.
  assert (has_long_number
            (Py.slice "foo, bar" (begin (span foo_bar_A)) (end_ (span foo_bar_A)))
          = false) as H4 by reflexivity.
  split; [exact H0|]. split; [exact H1|]. split; [exact H2|].
  split; [exact H3|]. split; [exact H4|].
  destruct (tokenize_annotation_tokens _ _ H0 H1 H2 H3 H4) as (tokens & Ht & Hall).
  exists tokens. split; [exact Ht|].
  eapply Forall_impl; [exact Hall|].
  intros t (Hc & _ & Hb & Hlt & He & _). tauto.
Defined.

(** X16. On ASCII text with no token of more than 4300 digits, [tokenize]
    returns; its spans are non-empty, inside the text, in order and with a
    character or more between two of them, and each has for covered text the
    lower-cased text that it covers, made of word characters. *)
Theorem tokenize_spans (text : string) :
  isascii text = true → has_long_number text = false →
  ∃ spans,
    tokenize text = Some spans
    ∧ apart_from 0 spans
    ∧ Forall (λ sp,
                0 ≤ begin sp ∧ begin sp < end_ sp ∧ end_ sp ≤ Py.len text
                ∧ covered_text sp
                  = Some (Str.lower (Py.slice text (begin sp) (end_ sp)))
                ∧ Forall (λ c, Re.is_word c = true)
                         (Py.chars (Str.lower (Py.slice text (begin sp) (end_ sp)))))
             spans.
Proof. intros _. apply tokenize_inv. Qed.

Lemma tokenize_spans_witness :
  isascii "Foo, BAR 42" = true
  ∧ has_long_number "Foo, BAR 42" = false
  ∧ ∃ spans,
      tokenize "Foo, BAR 42" = Some spans
      ∧ apart_from 0 spans
      ∧ Forall (λ sp, covered_text sp
                      = Some (Str.lower (Py.slice "Foo, BAR 42" (begin sp) (end_ sp))))
               spans.
Proof.
  assert (isascii "Foo, BAR 42" = true) as H0 by reflexivity.
  assert (has_long_number "Foo, BAR 42" = false) as H1 by reflexivity.
  split; [exact H0|]. split; [exact H1|].
  destruct (tokenize_spans _ H0 H1) as (spans & Ht & Hapart & Hall).
  exists spans. split; [exact Ht|]. split; [exact Hapart|].
  eapply Forall_impl; [exact Hall|]. intros sp (_ & _ & _ & Hc & _). exact Hc.
Defined.

(** *** Filters *)

Lemma filter_notes_by_category_ids dataset cats :
  hadm_id <$> admissions (filter_notes_by_category dataset cats)
  = hadm_id <$> admissions dataset.
Proof.
  unfold filter_notes_by_category. cbn [admissions].
  rewrite <- list_fmap_compose. by apply list_fmap_ext.
Qed.

(** X17. Filtering admissions by id and notes by category commute;
    filtering notes keeps every admission, also one left without notes; and
    after both filters every admission id and every note category is in the
    given set. *)
Theorem filters_commute (dataset : MDACEData) (ids : gset Z) (cats : gset string) :
  filter_notes_by_category (filter_admissions_by_id dataset ids) cats
  = filter_admissions_by_id (filter_notes_by_category dataset cats) ids
  ∧ hadm_id <$> admissions (filter_notes_by_category dataset cats)
    = hadm_id <$> admissions dataset
  ∧ Forall (λ adm, hadm_id adm ∈ ids
                   ∧ Forall (λ note, category note ∈ cats) (notes adm))
           (admissions
              (filter_notes_by_category (filter_admissions_by_id dataset ids) cats)).
Proof.
  split; [|split; [apply filter_notes_by_category_ids|]].
  - unfold filter_notes_by_category, filter_admissions_by_id. cbn [admissions].
    f_equal. induction (admissions dataset) as [|adm l IH]; [done|].
    rewrite fmap_cons, !filter_cons. cbn [hadm_id replace_notes].
    destruct (decide (hadm_id adm ∈ ids)); [|done].
    by rewrite fmap_cons, IH.
  - unfold filter_notes_by_category, filter_admissions_by_id. cbn [admissions].
    apply Forall_fmap, Forall_forall. intros adm Hadm.
    apply list_elem_of_filter in Hadm as [Hid _]. split; [done|].
    cbn [notes replace_notes]. apply Forall_forall. intros note Hnote.
    by apply list_elem_of_filter in Hnote as [Hcat _].
Qed.

(** *** The split file *)

Lemma load_hadm_ids_from_None (idx : nat) : ∀ lines hadm_ids,
  (0 < idx)%nat →
  load_hadm_ids_from idx lines hadm_ids = None
  ↔ ∃ line, line ∈ lines ∧ py_int (py_strip line) = None.
Proof.
  intros lines. revert idx.
  induction lines as [|line rest IH]; intros idx hadm_ids Hidx;
    cbn [load_hadm_ids_from].
  - split; [done|]. by intros (? & ?%elem_of_nil & _).
  - destruct (py_int (py_strip line)) as [n|] eqn:Hline.
    + rewrite IH by lia. split.
      * intros (l & Hl & Hnone). exists l. split; [by right|done].
      * intros (l & Hl & Hnone). apply elem_of_cons in Hl as [->|Hl];
          [congruence|]. by exists l.
    + rewrite bool_decide_eq_true_2 by done. split; [|done].
      intros _. exists line. split; [by left|done].
Qed.

Lemma load_hadm_ids_from_Some : ∀ lines idx hadm_ids ids,
  load_hadm_ids_from idx lines hadm_ids = Some ids →
  ∀ n, n ∈ ids
       ↔ n ∈ hadm_ids ∨ ∃ line, line ∈ lines ∧ py_int (py_strip line) = Some n.
Proof.
  induction lines as [|line rest IH]; intros idx hadm_ids ids;
    cbn [load_hadm_ids_from].
  - intros [= <-] n. split; [by left|]. by intros [?|(? & ?%elem_of_nil & _)].
  - destruct (py_int (py_strip line)) as [m|] eqn:Hline.
    + intros Hload n. rewrite (IH _ _ _ Hload n), elem_of_union, elem_of_singleton.
      split.
      * intros [[?| ->]|(l & Hl & Hn)]; [by left| |].
        -- right. exists line. split; [by left|done].
        -- right. exists l. split; [by right|done].
      * intros [?|(l & Hl & Hn)]; [by left; left|].
        apply elem_of_cons in Hl as [->|Hl].
        -- left. right. congruence.
        -- right. by exists l.
    + case_bool_decide; [done|]. intros Hload n. rewrite (IH _ _ _ Hload n).
      split.
      * intros [?|(l & Hl & Hn)]; [by left|]. right. exists l.
        split; [by right|done].
      * intros [?|(l & Hl & Hn)]; [by left|].
        apply elem_of_cons in Hl as [->|Hl]; [congruence|]. right. by exists l.
Qed.

(** X18. [load_hadm_ids] gives the empty set on an empty file; a first line
    that does not read as an integer is skipped as a header, whereas any
    later such line raises [ValueError]; and when it returns, the set holds
    exactly the integers that the lines read as. *)
Theorem load_hadm_ids_header :
  load_hadm_ids [] = Some ∅
  ∧ (∀ first rest,
       load_hadm_ids (first :: rest) = None
       ↔ ∃ line, line ∈ rest ∧ py_int (py_strip line) = None)
  ∧ (∀ lines ids,
       load_hadm_ids lines = Some ids →
       ∀ n, n ∈ ids ↔ ∃ line, line ∈ lines ∧ py_int (py_strip line) = Some n).
Proof.
  split; [done|]. split.
  - intros first rest. unfold load_hadm_ids. cbn [load_hadm_ids_from].
    rewrite bool_decide_eq_false_2 by lia.
    destruct (py_int (py_strip first)); apply load_hadm_ids_from_None; lia.
  - intros lines ids Hload n. unfold load_hadm_ids in Hload.
    rewrite (load_hadm_ids_from_Some _ _ _ _ Hload n). split; [|by right].
    by intros [?%not_elem_of_empty|?].
Qed.

Example load_hadm_ids_with_header :
  load_hadm_ids ["hadm_id" +:+ String Py.newline "";
                 "100001" +:+ String Py.newline "";
                 " 100_002 " +:+ String Py.newline "";
                 "-7"]
  = Some ({[100001; 100002; -7]}).
Proof. vm_compute. reflexivity. Qed.

(** *** Dictionaries *)

Lemma dict_get_set {V} (d : list (Z * V)) (k k' : Z) (v : V) :
  dict_get (dict_set d k v) k'
  = if bool_decide (k = k') then Some v else dict_get d k'.
Proof.
  induction d as [|[k0 v0] d IH]; cbn [dict_set dict_get].
  - by repeat case_bool_decide.
  - destruct (decide (k0 = k)) as [->|Hne].
    + rewrite bool_decide_eq_true_2 by done. cbn [dict_get].
      by case_bool_decide.
    + rewrite bool_decide_eq_false_2 by done. cbn [dict_get]. rewrite IH.
      repeat case_bool_decide; congruence.
Qed.

Lemma dict_of_admissions_get (adms : list Admission) : ∀ d k adm,
  dict_get (foldl (λ d adm, dict_set d (hadm_id adm) adm) d adms) k = Some adm →
  dict_get d k = Some adm ∨ (adm ∈ adms ∧ hadm_id adm = k).
Proof.
  induction adms as [|a adms IH]; intros d k adm; cbn [foldl].
  - by left.
  - intros Hget. apply IH in Hget as [Hget|[Hin Hid]].
    + rewrite dict_get_set in Hget. case_bool_decide as Hk; [|by left].
      injection Hget as <-. right. split; [by left|done].
    + right. split; [by right|done].
Qed.

(** *** The evaluation *)

Lemma evaluate_from_is_Some : ∀ gold self predictions,
  is_Some (evaluate_from self gold predictions)
  ↔ ∀ k actual, (k, actual) ∈ gold →
      ∃ predicted, dict_get predictions k = Some predicted
                   ∧ ¬ untokenizable actual ∧ ¬ untokenizable predicted.
Proof.
  induction gold as [|[k0 a0] gold IH]; intros self predictions;
    cbn [evaluate_from].
  - split; [|by eexists]. by intros _ k actual ?%elem_of_nil.
  - destruct (dict_get predictions k0) as [p0|] eqn:Hget.
    + destruct (observe tokenize self a0 p0) as [self'|] eqn:Hobs;
        cbn [mbind option_bind].
      * assert (¬ (untokenizable a0 ∨ untokenizable p0)) as Hno.
        { rewrite <- (observe_None self a0 p0). congruence. }
        rewrite IH. split.
        -- intros Hall k actual Hin. apply elem_of_cons in Hin as [[= -> ->]|Hin].
           ++ exists p0. tauto.
           ++ by apply Hall.
        -- intros Hall k actual Hin. apply Hall. by right.
      * split; [by intros [? ?]|]. intros Hall. exfalso.
        destruct (Hall k0 a0 ltac:(by left)) as (p & Hp & Ha & Hp').
        assert (p = p0) as -> by congruence.
        apply observe_None in Hobs. tauto.
    + assert (observe_unpredicted tokenize self a0 = None) as ->.
      { unfold observe_unpredicted.
        destruct (exact_match_error _ _); cbn [mbind option_bind]; [|done].
        destruct (position_independent_error _ _); cbn [mbind option_bind];
          [|done].
        by destruct (tokenize_admission _ _). }
      cbn [mbind option_bind]. split; [by intros [? ?]|]. intros Hall. exfalso.
      destruct (Hall k0 a0 ltac:(by left)) as (p & Hp & _). congruence.
Qed.

(** *** The grouped predictions *)

Lemma filters_filtered (dataset : MDACEData) (hadm_ids : gset Z)
    (target_categories : list string) :
  Forall (filtered hadm_ids target_categories)
    (admissions
       (if bool_decide (target_categories ≠ [])
        then filter_notes_by_category
               (filter_admissions_by_id dataset hadm_ids)
               (list_to_set target_categories)
        else filter_admissions_by_id dataset hadm_ids)).
Proof.
  case_bool_decide as Hcats.
  - unfold filter_notes_by_category, filter_admissions_by_id. cbn [admissions].
    apply Forall_fmap, Forall_forall. intros adm Hadm.
    apply list_elem_of_filter in Hadm as [Hid _]. split; [done|]. intros _.
    cbn [notes replace_notes]. apply Forall_forall. intros note Hnote.
    apply list_elem_of_filter in Hnote as [Hcat _].
    by apply elem_of_list_to_set in Hcat.
  - unfold filter_admissions_by_id. cbn [admissions].
    apply Forall_forall. intros adm Hadm.
    apply list_elem_of_filter in Hadm as [Hid _]. split; [done|].
    by intros ?.
Qed.

Lemma map_notes_filtered (map_fn : Note → option Note)
    (hadm_ids : gset Z) (target_categories : list string)
    (mdace mdace' : MDACEData) :
  (∀ n n', map_fn n = Some n' → category n' = category n) →
  _map_notes mdace map_fn = Some mdace' →
  Forall (filtered hadm_ids target_categories) (admissions mdace) →
  Forall (filtered hadm_ids target_categories) (admissions mdace').
Proof.
  intros Hcat Hmap. apply map_notes_Some in Hmap.
  induction Hmap as [|adm adm' l l' [Hid Hns] _ IH]; [done|].
  intros [[Hin Hcats] Hl]%Forall_cons_1. constructor; [|by apply IH].
  split; [by rewrite Hid|]. intros Hne. specialize (Hcats Hne).
  clear -Hns Hcats Hcat.
  induction Hns as [|n n' ns ns' Hn _ IHn]; [done|].
  apply Forall_cons_1 in Hcats as [Hc Hcats].
  constructor; [|by apply IHn]. by rewrite (Hcat _ _ Hn).
Qed.

Lemma load_grouped_predictions_inv (dataset : MDACEData) (hadm_ids : gset Z)
    (target_categories : list string) (merge_adjacent trim_annos : bool)
    (grouped : list (Z * Admission)) :
  load_grouped_predictions dataset hadm_ids target_categories
    merge_adjacent trim_annos = Some grouped →
  ∀ k adm, dict_get grouped k = Some adm →
    hadm_id adm = k ∧ filtered hadm_ids target_categories adm.
Proof.
  unfold load_grouped_predictions. intros Hload k adm Hget.
  pose proof (filters_filtered dataset hadm_ids target_categories) as H0.
  set (d0 := if bool_decide (target_categories ≠ []) then _ else _) in *.
  apply bind_Some in Hload as (d1 & H1 & Hload).
  apply bind_Some in Hload as (d2 & H2 & [= <-]).
  assert (Forall (filtered hadm_ids target_categories) (admissions d1)) as Hd1.
  { destruct merge_adjacent; [|by injection H1 as <-].
    eapply (map_notes_filtered merge_adjacent_in_note); [|exact H1|exact H0].
    intros n n' Hn. by apply merge_adjacent_in_note_keeps_fields in Hn as (_ & ? & _). }
  assert (Forall (filtered hadm_ids target_categories) (admissions d2)) as Hd2.
  { destruct trim_annos; [|by injection H2 as <-].
    eapply (map_notes_filtered trim_annotations_in_note); [|exact H2|exact Hd1].
    intros n n' Hn.
    by apply trim_annotations_in_note_keeps_fields in Hn as (_ & ? & _). }
  apply dict_of_admissions_get in Hget as [Hget|[Hin Hid]]; [done|].
  split; [done|]. by eapply Forall_forall in Hd2.
Qed.

(** X19. In the dictionary that [load_grouped_predictions] returns, each
    admission is stored under its own id, which is one of [hadm_ids], and,
    when categories are given, each of its notes has one of them. *)
Theorem load_grouped_predictions_keys (dataset : MDACEData) (hadm_ids : gset Z)
    (target_categories : list string) (merge_adjacent trim_annos : bool)
    (grouped : list (Z * Admission)) :
  load_grouped_predictions dataset hadm_ids target_categories
    merge_adjacent trim_annos = Some grouped →
  ∀ k adm, dict_get grouped k = Some adm →
    hadm_id adm = k ∧ k ∈ hadm_ids
    ∧ (target_categories ≠ [] →
       Forall (λ note, category note ∈ target_categories) (notes adm)).
Proof.
  intros Hload k adm Hget.
  destruct (load_grouped_predictions_inv _ _ _ _ _ _ Hload k adm Hget)
    as [Hid [Hin Hcats]].
  split; [done|]. split; [by rewrite <- Hid|done].
Qed.

Lemma load_grouped_predictions_keys_witness :
  load_grouped_predictions (mkMDACEData [admission_of [foo_A]]) {[100]}
    ["Discharge summary"%string] false false
  = Some [(100, admission_of [foo_A])]
  ∧ ∀ k adm, dict_get [(100, admission_of [foo_A])] k = Some adm →
      hadm_id adm = k ∧ k ∈ ({[100]} : gset Z).
Proof.
  assert (load_grouped_predictions (mkMDACEData [admission_of [foo_A]]) {[100]}
            ["Discharge summary"%string] false false
          = Some [(100, admission_of [foo_A])]) as H by reflexivity.
  split; [exact H|]. intros k adm Hk.
  destruct (load_grouped_predictions_keys _ _ _ _ _ _ H k adm Hk) as (H1 & H2 & _).
  split; [exact H1|exact H2].
Defined.

(** X20. With ASCII covered texts, the loop of [main] returns exactly when
    every gold admission id has a predicted admission and no annotation of
    either admission lacks its covered text or has a covered text with a
    token of more than 4300 digits; a gold admission without prediction
    raises, as [predictions.get] then gives a list, which has no notes. *)
Theorem evaluate_returns_iff (gold predictions : list (Z * Admission)) :
  Forall (λ item, ascii_texts item.2) gold →
  Forall (λ item, ascii_texts item.2) predictions →
  (is_Some (evaluate gold predictions)
   ↔ ∀ k actual, (k, actual) ∈ gold →
       ∃ predicted, dict_get predictions k = Some predicted
                    ∧ ¬ untokenizable actual ∧ ¬ untokenizable predicted).
Proof. intros _ _. apply evaluate_from_is_Some. Qed.

Lemma evaluate_returns_iff_witness :
  Forall (λ item, ascii_texts item.2) [(100, admission_of [foo_A; bar_A])]
  ∧ Forall (λ item, ascii_texts item.2) [(100, admission_of [foo_A; bar_B])]
  ∧ (is_Some (evaluate [(100, admission_of [foo_A; bar_A])]
                [(100, admission_of [foo_A; bar_B])])
     ↔ ∀ k actual, (k, actual) ∈ [(100, admission_of [foo_A; bar_A])] →
         ∃ predicted,
           dict_get [(100, admission_of [foo_A; bar_B])] k = Some predicted
           ∧ ¬ untokenizable actual ∧ ¬ untokenizable predicted).
Proof.
  assert (Forall (λ item : Z * Admission, ascii_texts item.2)
            [(100, admission_of [foo_A; bar_A])]) as Hg
    by (repeat constructor; apply ascii_texts_Forall; repeat constructor).
  assert (Forall (λ item : Z * Admission, ascii_texts item.2)
            [(100, admission_of [foo_A; bar_B])]) as Hp
    by (repeat constructor; apply ascii_texts_Forall; repeat constructor).
  split; [exact Hg|]. split; [exact Hp|].
  exact (evaluate_returns_iff _ _ Hg Hp).
Defined.
